(** * Parallel-tempering MCMC for the four-parameter logistic model

    A shallow embedding of [wasm/parallel_tempering_mcmc.cpp] and the
    verification of its specification.

    - A C++ [double] is an IEEE 754 binary64 value: Rocq's primitive [float],
      whose operations are the kernel's and whose meaning is given by
      [SpecFloat] through the axioms of [FloatAxioms].
    - The functions of [<cmath>] that the kernel does not provide ([exp],
      [log], [erfc], [pow]) are the fields of the class [Libm]; [sqrt] is the
      primitive one (correctly rounded, as [f64.sqrt] is).
    - The global [std::mt19937 rng] and the standard distributions drawn from
      it are the fields of the class [RandomSource]; the generator state is
      threaded explicitly through every function that draws.
    - An [int] is a [Z]; the conversions between [int] and [size_t] of the
      diagnostics are written out ([to_size_t], [to_int32]).
    - A [std::vector] is a [list]; [push_back] appends at the end and an
      out-of-range [operator[]] is undefined behaviour ([Undefined]).
    - The [while] loops of the proposal kernel take fuel; a loop that is still
      running when the fuel is spent yields [Diverges]. *)

From Stdlib Require Import ZArith List Bool Lia Floats.
From Stdlib Require Uint63.
Import ListNotations.

(* A decimal literal denotes the nearest binary64 value, as it does in C++. *)
Set Warnings "-inexact-float".

(** ** Outcomes of a call *)

Inductive outcome (A : Type) : Type :=
| Done (a : A)      (* the call returns [a] *)
| Undefined         (* out-of-range [operator[]]: undefined behaviour *)
| Diverges          (* a [while] loop outlives the fuel *)
| Throws.           (* a C++ exception leaves the call *)

Arguments Done {A} a.
Arguments Undefined {A}.
Arguments Diverges {A}.
Arguments Throws {A}.

Definition bind {A B : Type} (m : outcome A) (k : A -> outcome B) : outcome B :=
  match m with
  | Done a => k a
  | Undefined => Undefined
  | Diverges => Diverges
  | Throws => Throws
  end.

Declare Scope outcome_scope.
Delimit Scope outcome_scope with outcome.
Notation "x <- m ;; k" := (bind m (fun x => k))
  (at level 61, m at next level, right associativity) : outcome_scope.
Notation "' pat <- m ;; k" := (bind m (fun x => match x with pat => k end))
  (at level 61, pat pattern, m at next level, right associativity) : outcome_scope.
Open Scope outcome_scope.

(** ** Vectors and integer conversions *)

(* [v[i]] for a [std::vector] [v]. *)
Definition vec_at {A : Type} (v : list A) (i : Z) : outcome A :=
  if (i <? 0)%Z then Undefined
  else match nth_error v (Z.to_nat i) with
       | Some a => Done a
       | None => Undefined
       end.

Fixpoint list_set {A : Type} (v : list A) (i : nat) (a : A) : list A :=
  match v, i with
  | [], _ => []
  | _ :: v', O => a :: v'
  | b :: v', S i' => b :: list_set v' i' a
  end.

(* [v[i] = a]. *)
Definition vec_set {A : Type} (v : list A) (i : Z) (a : A) : outcome (list A) :=
  if ((i <? 0) || (Z.of_nat (length v) <=? i))%Z then Undefined
  else Done (list_set v (Z.to_nat i) a).

(* [v.size()]. *)
Definition vec_size {A : Type} (v : list A) : Z := Z.of_nat (length v).

(* Conversion to [size_t] (32 bits on the wasm32 target) and to [int]. *)
Definition to_size_t (z : Z) : Z := (z mod 2 ^ 32)%Z.

Definition to_int32 (z : Z) : Z :=
  let m := (z mod 2 ^ 32)%Z in
  if (m <? 2 ^ 31)%Z then m else (m - 2 ^ 32)%Z.

(* Conversion of an integer to [double]; exact below 2^53. *)
Definition double_of_Z (z : Z) : float :=
  if (z <? 0)%Z then (- PrimFloat.of_uint63 (Uint63.of_Z (- z)))%float
  else PrimFloat.of_uint63 (Uint63.of_Z z).

(* [std::max(a, b)] and [std::min(a, b)] as <algorithm> defines them. *)
Definition std_max (a b : float) : float := if (a <? b)%float then b else a.
Definition std_min (a b : float) : float := if (b <? a)%float then b else a.

(** ** The C library and the random source *)

(* <cmath>.  The two laws are those of C Annex F: [log(NaN)] is NaN, and
   [pow(x, NaN)] is NaN unless [x] is 1. *)
Class Libm : Type := {
  exp : float -> float;
  log : float -> float;
  erfc : float -> float;
  pow : float -> float -> float;
  log_nan : log nan = nan;
  pow_nan : forall x, (x =? 1)%float = false -> pow x nan = nan
}.

(* <random>.  [rng_state] is the state of the global [std::mt19937 rng];
   [normal_state] is the state a [std::normal_distribution<double>] object
   keeps between calls.  The other distributions keep none.  The laws are the
   ranges the standard gives each distribution. *)
Class RandomSource : Type := {
  rng_state : Type;
  rng_seed : Z -> rng_state;
  normal_state : Type;
  normal_fresh : normal_state;
  normal_draw : normal_state -> rng_state -> float * normal_state * rng_state;
  uniform_real : float -> float -> rng_state -> float * rng_state;
  uniform_int : Z -> Z -> rng_state -> Z * rng_state;
  uniform_real_range : forall a b g, (a <=? b)%float = true ->
    (a <=? fst (uniform_real a b g))%float = true /\
    (fst (uniform_real a b g) <=? b)%float = true;
  uniform_int_range : forall lo hi g, (lo <= hi)%Z ->
    (lo <= fst (uniform_int lo hi g) <= hi)%Z
}.

(** ** Math kernel *)

Section MathKernel.
Context {L : Libm}.
Local Open Scope float_scope.

Definition M_PI : float := 3.14159265358979323846.

Definition sigmoid (x : float) : float := 1.0 / (1.0 + exp (- x)).

Definition log_beta_pdf (x alpha beta : float) : float :=
  if (x <=? 0.0) || (1.0 <=? x) then neg_infinity
  else (alpha - 1.0) * log x + (beta - 1.0) * log (1.0 - x).

Definition log_normal_pdf (x mean sd : float) : float :=
  let z := (x - mean) / sd in
  (-0.5) * z * z - log sd - 0.5 * log (2.0 * M_PI).

Definition log_truncated_normal_pdf (x mean sd : float) : float :=
  if x <=? 0.0 then neg_infinity
  else
    let z := (x - mean) / sd in
    let log_normalization :=
      log (1.0 - 0.5 * erfc (- mean / (sd * sqrt 2.0))) in
    (-0.5) * z * z - log sd - 0.5 * log (2.0 * M_PI) - log_normalization.

Definition log_bernoulli_pmf (y : Z) (p : float) : float :=
  if (p <=? 0.0) || (1.0 <=? p) then neg_infinity
  else if (y =? 1)%Z then log p else log (1.0 - p).

Record Params : Type := mkParams {
  floor : float;
  ceiling : float;
  ec50 : float;
  slope : float
}.

Record Priors : Type := mkPriors {
  floor_alpha : float;
  floor_beta : float;
  ceiling_alpha : float;
  ceiling_beta : float;
  ec50_mean : float;
  ec50_sd : float;
  slope_mean : float;
  slope_sd : float
}.

(* [Priors()]. *)
Definition default_Priors : Priors := mkPriors 1.0 1.0 1.0 1.0 0.0 1.0 1.0 1.0.

Record Data : Type := mkData {
  titre : list float;
  infected : list Z;
  N : Z
}.

(* [Data()] and [Data(t, i)]. *)
Definition empty_Data : Data := mkData [] [] 0.
Definition Data_of (t : list float) (i : list Z) : Data :=
  mkData t i (to_int32 (vec_size t)).

Definition log_prior (p : Params) (priors : Priors) : float :=
  let lp := 0.0 in
  let lp := lp + log_beta_pdf (floor p) (floor_alpha priors) (floor_beta priors) in
  let lp := lp + log_beta_pdf (ceiling p) (ceiling_alpha priors) (ceiling_beta priors) in
  let lp := lp + log_normal_pdf (ec50 p) (ec50_mean priors) (ec50_sd priors) in
  let lp := lp + log_truncated_normal_pdf (slope p) (slope_mean priors) (slope_sd priors) in
  lp.

(* The model's probability of infection at one titre. *)
Definition prob_infection (p : Params) (t : float) : float :=
  ceiling p * (sigmoid (- slope p * (t - ec50 p)) * (1.0 - floor p) + floor p).

(* The body of [for (int i = 0; i < data.N; ++i)], [count] iterations from
   index [i] with the running sum [ll]. *)
Fixpoint log_likelihood_loop (p : Params) (data : Data) (count : nat) (i : Z)
    (ll : float) : outcome float :=
  match count with
  | O => Done ll
  | S count' =>
      t <- vec_at (titre data) i ;;
      y <- vec_at (infected data) i ;;
      let ll := ll + log_bernoulli_pmf y (prob_infection p t) in
      if negb (is_finite ll) then Done neg_infinity
      else log_likelihood_loop p data count' (i + 1)%Z ll
  end.

Definition log_likelihood (p : Params) (data : Data) : outcome float :=
  log_likelihood_loop p data (Z.to_nat (N data)) 0%Z 0.0.

Definition log_posterior_tempered (p : Params) (data : Data) (priors : Priors)
    (temperature : float) : outcome float :=
  let lp := log_prior p priors in
  if negb (is_finite lp) then Done neg_infinity
  else
    ll <- log_likelihood p data ;;
    if negb (is_finite ll) then Done neg_infinity
    else Done (lp + ll / temperature).

End MathKernel.

(** ** Proposal kernel: [class ProposalDistribution] *)

Module ProposalDistribution.
Section Class.
Context {R : RandomSource}.
Local Open Scope float_scope.

(* The member [uniform_dist] is never drawn from and keeps no state. *)
Record t : Type := mk {
  step_sizes : list float;
  normal_dist : normal_state
}.

(* [ProposalDistribution()]. *)
Definition new : t := mk (repeat 0.1 4) normal_fresh.

Definition adapt (iteration : Z) (acceptance_rate : float) (pd : t) : t :=
  let target := 0.234 in
  let scale := if target <? acceptance_rate then 1.01 else 0.99 in
  if (Z.rem iteration 50 =? 0)%Z then
    mk (map (fun s => let s := s * scale in std_max 0.001 (std_min s 1.0))
            (step_sizes pd))
       (normal_dist pd)
  else pd.

(* [while (x <= 0.0 || x >= 1.0) { if (x <= 0.0) x = -x;
                                    if (x >= 1.0) x = 2.0 - x; }] *)
Fixpoint reflect_unit (fuel : nat) (x : float) : outcome float :=
  if (x <=? 0.0) || (1.0 <=? x) then
    match fuel with
    | O => Diverges
    | S fuel' =>
        let x := if x <=? 0.0 then - x else x in
        let x := if 1.0 <=? x then 2.0 - x else x in
        reflect_unit fuel' x
    end
  else Done x.

(* [while (x <= 0.0) { x = -x; }] *)
Fixpoint reflect_positive (fuel : nat) (x : float) : outcome float :=
  if x <=? 0.0 then
    match fuel with
    | O => Diverges
    | S fuel' => reflect_positive fuel' (- x)
    end
  else Done x.

Definition propose (fuel : nat) (pd : t) (current : Params) (g : rng_state)
    : outcome (Params * t * rng_state) :=
  s0 <- vec_at (step_sizes pd) 0 ;;
  let '(z, nd, g) := normal_draw (normal_dist pd) g in
  floor_prop <- reflect_unit fuel (floor current + s0 * z) ;;
  s1 <- vec_at (step_sizes pd) 1 ;;
  let '(z, nd, g) := normal_draw nd g in
  ceiling_prop <- reflect_unit fuel (ceiling current + s1 * z) ;;
  s2 <- vec_at (step_sizes pd) 2 ;;
  let '(z, nd, g) := normal_draw nd g in
  let ec50_prop := ec50 current + s2 * z in
  s3 <- vec_at (step_sizes pd) 3 ;;
  let '(z, nd, g) := normal_draw nd g in
  slope_prop <- reflect_positive fuel (slope current + s3 * z) ;;
  Done (mkParams floor_prop ceiling_prop ec50_prop slope_prop,
        mk (step_sizes pd) nd, g).

End Class.
End ProposalDistribution.

(** ** Single-temperature chain: [class MCMCChain] *)

Module MCMCChain.
Section Class.
Context {L : Libm} {R : RandomSource}.
Local Open Scope float_scope.

(* [accepted] and [total] are [int]s; a chain is stepped fewer than 2^31
   times, so their arithmetic is that of [Z]. *)
Record t : Type := mk {
  current : Params;
  current_log_posterior : float;
  temperature : float;
  proposal : ProposalDistribution.t;
  accepted : Z;
  total : Z;
  samples : list Params
}.

(* [MCMCChain(temp, init, data, priors)]. *)
Definition new (temp : float) (init : Params) (data : Data) (priors : Priors)
    : outcome t :=
  lp <- log_posterior_tempered init data priors temp ;;
  Done (mk init lp temp ProposalDistribution.new 0 0 []).

Definition step (fuel : nat) (data : Data) (priors : Priors) (c : t)
    (g : rng_state) : outcome (t * rng_state) :=
  '(proposed, pd, g) <- ProposalDistribution.propose fuel (proposal c) (current c) g ;;
  proposed_log_posterior <-
    log_posterior_tempered proposed data priors (temperature c) ;;
  let log_alpha := proposed_log_posterior - current_log_posterior c in
  let total' := (total c + 1)%Z in
  let '(u, g) := uniform_real 0.0 1.0 g in
  let accept := log u <? log_alpha in
  let current' := if accept then proposed else current c in
  let lp' := if accept then proposed_log_posterior else current_log_posterior c in
  let accepted' := if accept then (accepted c + 1)%Z else accepted c in
  let samples' := samples c ++ [current'] in
  let pd' :=
    if (Z.rem total' 50 =? 0)%Z then
      ProposalDistribution.adapt total'
        (double_of_Z accepted' / double_of_Z total') pd
    else pd in
  Done (mk current' lp' (temperature c) pd' accepted' total' samples', g).

Definition get_log_posterior (c : t) : float := current_log_posterior c.

Definition get_current (c : t) : Params := current c.

Definition set_current (p : Params) (data : Data) (priors : Priors) (c : t)
    : outcome t :=
  lp <- log_posterior_tempered p data priors (temperature c) ;;
  Done (mk p lp (temperature c) (proposal c) (accepted c) (total c) (samples c)).

Definition get_acceptance_rate (c : t) : float :=
  if (0 <? total c)%Z then double_of_Z (accepted c) / double_of_Z (total c)
  else 0.0.

End Class.
End MCMCChain.

(** ** The ensemble: [class ParallelTemperingMCMC] *)

Module ParallelTemperingMCMC.
Section Class.
Context {L : Libm} {R : RandomSource}.
Local Open Scope float_scope.

Record t : Type := mk {
  chains : list MCMCChain.t;
  temperatures : list float;
  data : Data;
  priors : Priors;
  num_chains : Z;
  swap_accepted : Z;
  swap_total : Z
}.

(* [for (int i = 0; i < num_chains; ++i)
      temperatures[i] = std::pow(max_temp, static_cast<double>(i) / (num_chains - 1));] *)
Fixpoint ladder_loop (count : nat) (i : Z) (num_chains : Z) (temps : list float)
    : outcome (list float) :=
  match count with
  | O => Done temps
  | S count' =>
      let max_temp := 10.0 in
      temps <- vec_set temps i
                 (pow max_temp (double_of_Z i / double_of_Z (num_chains - 1))) ;;
      ladder_loop count' (i + 1)%Z num_chains temps
  end.

(* [for (int i = 0; i < num_chains; ++i) { Params init(...); chains.emplace_back(...); }]
   The four draws are made in the order the arguments are written. *)
Fixpoint init_loop (count : nat) (i : Z) (temps : list float) (d : Data)
    (p : Priors) (cs : list MCMCChain.t) (g : rng_state)
    : outcome (list MCMCChain.t * rng_state) :=
  match count with
  | O => Done (cs, g)
  | S count' =>
      let '(f, g) := uniform_real 0.01 0.5 g in
      let '(c, g) := uniform_real 0.1 0.9 g in
      let '(e, g) := uniform_real (-2.0) 2.0 g in
      let '(s, g) := uniform_real 0.1 3.0 g in
      temp <- vec_at temps i ;;
      chain <- MCMCChain.new temp (mkParams f c e s) d p ;;
      init_loop count' (i + 1)%Z temps d p (cs ++ [chain]) g
  end.

(* [ParallelTemperingMCMC(n_chains, d, p)].  [temperatures.resize(num_chains)]
   converts a negative [int] to a [size_t] above [max_size()] and throws
   [std::length_error]; the memory a large ladder needs is not modelled. *)
Definition construct (n_chains : Z) (d : Data) (p : Priors) (g : rng_state)
    : outcome (t * rng_state) :=
  if (n_chains <? 0)%Z then Throws
  else
    let count := Z.to_nat n_chains in
    temps <- ladder_loop count 0%Z n_chains (repeat 0.0 count) ;;
    '(cs, g) <- init_loop count 0%Z temps d p [] g ;;
    Done (mk cs temps d p n_chains 0 0, g).

(* [for (auto& chain : chains) chain.step(data, priors);] *)
Fixpoint step_all (fuel : nat) (d : Data) (p : Priors) (cs : list MCMCChain.t)
    (g : rng_state) : outcome (list MCMCChain.t * rng_state) :=
  match cs with
  | [] => Done ([], g)
  | c :: rest =>
      '(c', g) <- MCMCChain.step fuel d p c g ;;
      '(rest', g) <- step_all fuel d p rest g ;;
      Done (c' :: rest', g)
  end.

(* The body of [if (iter % 10 == 0 && num_chains > 1)]. *)
Definition attempt_swap (pt : t) (g : rng_state) : outcome (t * rng_state) :=
  let '(i, g) := uniform_int 0 (num_chains pt - 2) g in
  let j := (i + 1)%Z in
  ci <- vec_at (chains pt) i ;;
  cj <- vec_at (chains pt) j ;;
  tj <- vec_at (temperatures pt) j ;;
  ti <- vec_at (temperatures pt) i ;;
  let log_alpha :=
    (MCMCChain.get_log_posterior ci - MCMCChain.get_log_posterior cj)
    * (1.0 / tj - 1.0 / ti) in
  let swap_total' := (swap_total pt + 1)%Z in
  let '(u, g) := uniform_real 0.0 1.0 g in
  if log u <? log_alpha then
    let temp_params := MCMCChain.get_current ci in
    ci' <- MCMCChain.set_current (MCMCChain.get_current cj) (data pt) (priors pt) ci ;;
    cs <- vec_set (chains pt) i ci' ;;
    cj <- vec_at cs j ;;
    cj' <- MCMCChain.set_current temp_params (data pt) (priors pt) cj ;;
    cs <- vec_set cs j cj' ;;
    Done (mk cs (temperatures pt) (data pt) (priors pt) (num_chains pt)
             (swap_accepted pt + 1)%Z swap_total', g)
  else
    Done (mk (chains pt) (temperatures pt) (data pt) (priors pt) (num_chains pt)
             (swap_accepted pt) swap_total', g).

(* One turn of the loop of [run], at loop index [iter]. *)
Definition iteration (fuel : nat) (iter : Z) (pt : t) (g : rng_state)
    : outcome (t * rng_state) :=
  '(cs, g) <- step_all fuel (data pt) (priors pt) (chains pt) g ;;
  let pt := mk cs (temperatures pt) (data pt) (priors pt) (num_chains pt)
               (swap_accepted pt) (swap_total pt) in
  if ((Z.rem iter 10 =? 0) && (1 <? num_chains pt))%Z then attempt_swap pt g
  else Done (pt, g).

(* [for (...; iter < n_iterations; ++iter)]: [count] turns from index [iter]. *)
Fixpoint run_loop (fuel : nat) (count : nat) (iter : Z) (pt : t) (g : rng_state)
    : outcome (t * rng_state) :=
  match count with
  | O => Done (pt, g)
  | S count' =>
      '(pt, g) <- iteration fuel iter pt g ;;
      run_loop fuel count' (iter + 1)%Z pt g
  end.

Definition run (fuel : nat) (n_iterations : Z) (pt : t) (g : rng_state)
    : outcome (t * rng_state) :=
  run_loop fuel (Z.to_nat n_iterations) 0%Z pt g.

Definition get_samples (pt : t) : outcome (list Params) :=
  c0 <- vec_at (chains pt) 0 ;;
  Done (MCMCChain.samples c0).

(* The four vectors the diagnostics fill side by side. *)
Record columns : Type := mkColumns {
  col_floor : list float;
  col_ceiling : list float;
  col_ec50 : list float;
  col_slope : list float
}.

Definition no_columns : columns := mkColumns [] [] [] [].

Definition push_back (cols : columns) (p : Params) : columns :=
  mkColumns (col_floor cols ++ [floor p]) (col_ceiling cols ++ [ceiling p])
            (col_ec50 cols ++ [ec50 p]) (col_slope cols ++ [slope p]).

(* [for (int i = ...; ...; ++i) { ..._floor.push_back(samples[i].floor); ... }]:
   [count] turns from index [i]. *)
Fixpoint gather (count : nat) (i : Z) (samples : list Params) (cols : columns)
    : outcome columns :=
  match count with
  | O => Done cols
  | S count' =>
      p <- vec_at samples i ;;
      gather count' (i + 1)%Z samples (push_back cols p)
  end.

(* [std::accumulate(v.begin(), v.end(), 0.0)]. *)
Definition accumulate (v : list float) : float :=
  fold_left PrimFloat.add v 0.0.

(* The lambda [compute_var] of [compute_rhat_param]. *)
Definition compute_var (v : list float) (m : float) : float :=
  let sum := fold_left (fun sum x => sum + (x - m) * (x - m)) v 0.0 in
  sum / double_of_Z (to_size_t (vec_size v - 1)).

(* The lambda [compute_rhat_param]. *)
Definition compute_rhat_param (c1 c2 : list float) : float :=
  let mean1 := accumulate c1 / double_of_Z (vec_size c1) in
  let mean2 := accumulate c2 / double_of_Z (vec_size c2) in
  let overall_mean := (mean1 + mean2) / 2.0 in
  let var1 := compute_var c1 mean1 in
  let var2 := compute_var c2 mean2 in
  let W := (var1 + var2) / 2.0 in
  let B := double_of_Z (vec_size c1)
           * ((mean1 - overall_mean) * (mean1 - overall_mean)
              + (mean2 - overall_mean) * (mean2 - overall_mean)) in
  let var_plus :=
    ((double_of_Z (vec_size c1) - 1.0) / double_of_Z (vec_size c1)) * W
    + (1.0 / double_of_Z (vec_size c1)) * B in
  sqrt (var_plus / W).

Definition compute_rhat (warmup : Z) (pt : t) : outcome (list float) :=
  c0 <- vec_at (chains pt) 0 ;;
  let samples := MCMCChain.samples c0 in
  let n := to_int32 (to_size_t (vec_size samples - to_size_t warmup)) in
  if (n <? 100)%Z then Done [1.0; 1.0; 1.0; 1.0]
  else
    let half := Z.quot n 2 in
    chain1 <- gather (Z.to_nat (warmup + half - warmup)) warmup samples no_columns ;;
    chain2 <- gather (Z.to_nat (vec_size samples - to_size_t (warmup + half)))
                     (warmup + half)%Z samples no_columns ;;
    Done [compute_rhat_param (col_floor chain1) (col_floor chain2);
          compute_rhat_param (col_ceiling chain1) (col_ceiling chain2);
          compute_rhat_param (col_ec50 chain1) (col_ec50 chain2);
          compute_rhat_param (col_slope chain1) (col_slope chain2)].

(* [for (size_t i = lag; i < x.size(); ++i)
      sum += (x[i] - mean) * (x[i - lag] - mean);] *)
Fixpoint lag_sum (count : nat) (i : Z) (lag : Z) (x : list float) (mean : float)
    (sum : float) : outcome float :=
  match count with
  | O => Done sum
  | S count' =>
      xi <- vec_at x i ;;
      xl <- vec_at x (i - lag) ;;
      lag_sum count' (i + 1)%Z lag x mean (sum + (xi - mean) * (xl - mean))
  end.

(* [for (int lag = 1; lag < bound; ++lag) { ...; if (acf.back() < 0.0) break; }] *)
Fixpoint acf_loop (count : nat) (lag : Z) (x : list float) (mean var : float)
    (acf : list float) : outcome (list float) :=
  match count with
  | O => Done acf
  | S count' =>
      sum <- lag_sum (Z.to_nat (vec_size x - lag)) lag lag x mean 0.0 ;;
      let r := sum / (double_of_Z (to_size_t (vec_size x - to_size_t lag)) * var) in
      let acf := acf ++ [r] in
      if r <? 0.0 then Done acf
      else acf_loop count' (lag + 1)%Z x mean var acf
  end.

(* The lambda [compute_ess_param]. *)
Definition compute_ess_param (x : list float) : outcome float :=
  let mean := accumulate x / double_of_Z (vec_size x) in
  let var := fold_left (fun var v => var + (v - mean) * (v - mean)) x 0.0 in
  let var := var / double_of_Z (to_size_t (vec_size x - 1)) in
  let bound := Z.min 100 (Z.quot (to_int32 (vec_size x)) 2) in
  acf <- acf_loop (Z.to_nat (bound - 1)) 1%Z x mean var [] ;;
  let sum_acf := accumulate acf in
  Done (double_of_Z (vec_size x) / (1.0 + 2.0 * sum_acf)).

Definition compute_ess (warmup : Z) (pt : t) : outcome (list float) :=
  c0 <- vec_at (chains pt) 0 ;;
  let samples := MCMCChain.samples c0 in
  let n := to_int32 (to_size_t (vec_size samples - to_size_t warmup)) in
  if (n <? 100)%Z then Done [0.0; 0.0; 0.0; 0.0]
  else
    cols <- gather (Z.to_nat (vec_size samples - to_size_t warmup)) warmup
                   samples no_columns ;;
    e_floor <- compute_ess_param (col_floor cols) ;;
    e_ceiling <- compute_ess_param (col_ceiling cols) ;;
    e_ec50 <- compute_ess_param (col_ec50 cols) ;;
    e_slope <- compute_ess_param (col_slope cols) ;;
    Done [e_floor; e_ceiling; e_ec50; e_slope].

Definition get_swap_rate (pt : t) : float :=
  if (0 <? swap_total pt)%Z
  then double_of_Z (swap_accepted pt) / double_of_Z (swap_total pt)
  else 0.0.

Definition get_acceptance_rates (pt : t) : list float :=
  map MCMCChain.get_acceptance_rate (chains pt).

End Class.
End ParallelTemperingMCMC.

(** ** The global generator *)

(* [void set_random_seed(unsigned int seed) { rng.seed(seed); }]: the state of
   [rng] after the call, whatever it was before. *)
Definition set_random_seed {R : RandomSource} (seed : Z) (g : rng_state)
    : rng_state :=
  rng_seed (seed mod 2 ^ 32)%Z.

(** * The specification's notions

    What the properties below speak of, written after the specification's
    words, to be compared with the code above. *)

Section Specification.
Context {L : Libm} {R : RandomSource}.
Local Open Scope float_scope.
Import ParallelTemperingMCMC.

(** *** Section 3: the data model *)

(* [D.N] observations are there to be read. *)
Definition data_in_bounds (data : Data) : Prop :=
  (N data <= vec_size (titre data))%Z /\ (N data <= vec_size (infected data))%Z.

(* The domain of a parameter vector. *)
Definition theta_ok (p : Params) : Prop :=
  (0 <? floor p) = true /\ (floor p <? 1) = true /\
  (0 <? ceiling p) = true /\ (ceiling p <? 1) = true /\
  (0 <? slope p) = true /\ is_finite (ec50 p) = true.

Definition ensemble_ok (pt : t) : Prop :=
  Forall (fun c => theta_ok (MCMCChain.current c)) (chains pt).

(* The same, as a test that runs. *)
Definition in_domain (p : Params) : bool :=
  (0 <? floor p) && (floor p <? 1) && (0 <? ceiling p) && (ceiling p <? 1)
  && (0 <? slope p) && is_finite (ec50 p).

Definition all_in_domain (pt : t) : bool :=
  forallb (fun c => in_domain (MCMCChain.current c)) (chains pt).

(* The ensemble as the constructor builds it: as many chains and temperatures
   as [num_chains] says, on a dataset within bounds. *)
Definition well_formed (pt : t) : Prop :=
  vec_size (chains pt) = num_chains pt /\
  vec_size (temperatures pt) = num_chains pt /\
  data_in_bounds (data pt).

(** *** Section 4.1: the log-likelihood and the tempered log-posterior *)

(* The Bernoulli log-pmf of each observation ... *)
Definition bernoulli_terms (p : Params) (data : Data) : list float :=
  map (fun ty => log_bernoulli_pmf (snd ty) (prob_infection p (fst ty)))
      (firstn (Z.to_nat (N data)) (combine (titre data) (infected data))).

(* ... summed from the left, every partial sum kept ... *)
Fixpoint partial_sums (acc : float) (terms : list float) : list float :=
  match terms with
  | [] => []
  | t :: ts => (acc + t) :: partial_sums (acc + t) ts
  end.

(* ... and minus infinity when one of them is not finite. *)
Definition sum_or_neg_infinity (acc : float) (terms : list float) : float :=
  let sums := partial_sums acc terms in
  if forallb is_finite sums then last sums acc else neg_infinity.

Definition tempered (p : Params) (d : Data) (priors : Priors) (T : float) : float :=
  let lp := log_prior p priors in
  let ll := sum_or_neg_infinity 0 (bernoulli_terms p d) in
  if is_finite lp && is_finite ll then lp + ll / T else neg_infinity.

(* The log-likelihood in the specification's own words.  The probability of
   infection at the titre [t]:
   [ceiling * (sigma(-slope * (t - ec50)) * (1 - floor) + floor)], with
   [sigma(x) = 1 / (1 + e^(-x))]. *)
Definition sigma (x : float) : float := 1 / (1 + exp (- x)).

Definition infection_probability (p : Params) (t : float) : float :=
  ceiling p * (sigma (- slope p * (t - ec50 p)) * (1 - floor p) + floor p).

(* The Bernoulli log-pmf: [log q] if [y = 1], else [log (1 - q)]; minus
   infinity if [q] is not in (0, 1). *)
Definition bernoulli_log_pmf (y : Z) (q : float) : float :=
  if (0 <? q) && (q <? 1) then
    if (y =? 1)%Z then log q else log (1 - q)
  else neg_infinity.

(* Its values at the [N] observations, and their sum from the left, minus
   infinity once a partial sum is not finite. *)
Definition stated_terms (p : Params) (data : Data) : list float :=
  map (fun ty => bernoulli_log_pmf (snd ty) (infection_probability p (fst ty)))
      (firstn (Z.to_nat (N data)) (combine (titre data) (infected data))).

Definition log_likelihood_stated (p : Params) (data : Data) : float :=
  sum_or_neg_infinity 0 (stated_terms p data).

(** *** Section 4.4: the ladder and the swap *)

(* [T_k = T_max^(k/(K-1))] for [k] in [0, K), with [T_max = 10]. *)
Definition ladder_entry (K : Z) (k : nat) : float :=
  pow 10 (double_of_Z (Z.of_nat k) / double_of_Z (K - 1)).

Definition geometric_ladder (K : Z) : list float :=
  map (ladder_entry K) (seq 0 (Z.to_nat K)).


(* A swap is due at the turns whose index is a multiple of 10, when there is
   more than one chain. *)
Definition swap_due (iter : Z) (pt : t) : bool :=
  ((Z.rem iter 10 =? 0) && (1 <? num_chains pt))%Z.

(** *** Section 4.5: split R-hat *)

(* [trace[w:]]. *)
Definition post_warmup (warmup : Z) (trace : list Params) : list Params :=
  skipn (Z.to_nat warmup) trace.

Definition mean (x : list float) : float :=
  accumulate x / double_of_Z (vec_size x).

Definition sum_sq_dev (x : list float) (mu : float) : float :=
  fold_left (fun s v => s + (v - mu) * (v - mu)) x 0.

(* The split R-hat of the values [x], the sample variance of the second half
   taken with the divisor [d2]. *)
Definition split_rhat (d2 : Z) (x : list float) : float :=
  let n := vec_size x in
  let h := (n / 2)%Z in
  let x1 := firstn (Z.to_nat h) x in
  let x2 := skipn (Z.to_nat h) x in
  let mu1 := mean x1 in
  let mu2 := mean x2 in
  let v1 := sum_sq_dev x1 mu1 / double_of_Z (h - 1) in
  let v2 := sum_sq_dev x2 mu2 / double_of_Z d2 in
  let W := (v1 + v2) / 2 in
  let mu := (mu1 + mu2) / 2 in
  let B := double_of_Z h * ((mu1 - mu) * (mu1 - mu) + (mu2 - mu) * (mu2 - mu)) in
  let V := ((double_of_Z h - 1) / double_of_Z h) * W + (1 / double_of_Z h) * B in
  sqrt (V / W).

(* As the specification states it: both halves with the divisor [h - 1]. *)
Definition split_rhat_stated (x : list float) : float :=
  split_rhat (vec_size x / 2 - 1) x.

(* As the code computes it: each half with its own length less one. *)
Definition split_rhat_by_half (x : list float) : float :=
  split_rhat (vec_size x - vec_size x / 2 - 1) x.

Definition per_parameter (f : list float -> float) (x : list Params) : list float :=
  [f (map floor x); f (map ceiling x); f (map ec50 x); f (map slope x)].

Definition append_columns (cols : columns) (ps : list Params) : columns :=
  mkColumns (col_floor cols ++ map floor ps) (col_ceiling cols ++ map ceiling ps)
            (col_ec50 cols ++ map ec50 ps) (col_slope cols ++ map slope ps).

(** *** Section 6: a session of the host *)

(* The calls [run(n1); run(n2); ...] on one sampler. *)
Fixpoint runs (fuel : nat) (ns : list Z) (pt : t) (g : rng_state)
    : outcome (t * rng_state) :=
  match ns with
  | [] => Done (pt, g)
  | n :: ns' => '(pt, g) <- run fuel n pt g ;; runs fuel ns' pt g
  end.

(* [set_random_seed(seed); sampler = construct(K, D, priors); run(...); ...],
   started with the global generator in the state [g0]. *)
Definition session (fuel : nat) (seed : Z) (K : Z) (d : Data) (p : Priors)
    (ns : list Z) (g0 : rng_state) : outcome (t * rng_state) :=
  let g := set_random_seed seed g0 in
  '(pt, g) <- construct K d p g ;;
  runs fuel ns pt g.

(* Everything the facade lets the host read. *)
Record report : Type := mkReport {
  rep_samples : outcome (list Params);
  rep_acceptance_rates : list float;
  rep_swap_rate : float;
  rep_rhat : outcome (list float);
  rep_ess : outcome (list float)
}.

Definition observe (warmup : Z) (pt : t) : report :=
  mkReport (get_samples pt) (get_acceptance_rates pt) (get_swap_rate pt)
    (compute_rhat warmup pt) (compute_ess warmup pt).

End Specification.

(* A computation that, once it returns with some fuel, returns the same with
   more. *)
Definition stable {A : Type} (F : nat -> outcome A) : Prop :=
  forall f f' a, (f <= f')%nat -> F f = Done a -> F f' = Done a.

(** * Verification *)

(** ** IEEE 754 facts used below *)

Module IEEEFacts.
Local Open Scope float_scope.

(* The values that are neither infinite nor NaN, on the specification side. *)
Definition sf_finite (s : spec_float) : bool :=
  match s with
  | S754_zero _ | S754_finite _ _ _ => true
  | S754_infinity _ | S754_nan => false
  end.

Ltac sf_cases :=
  repeat match goal with
  | b : bool |- _ => destruct b
  end; simpl in *; try congruence.

Ltac cmp_cases :=
  repeat match goal with
  | |- context [(?a ?= ?b)%Z] => destruct (Z.compare_spec a b)
  | H : context [(?a ?= ?b)%Z] |- _ => destruct (Z.compare_spec a b)
  | |- context [PosDef.Pos.compare_cont Eq ?a ?b] =>
      change (PosDef.Pos.compare_cont Eq a b) with (Pos.compare a b);
      destruct (Pos.compare_spec a b)
  | H : context [PosDef.Pos.compare_cont Eq ?a ?b] |- _ =>
      change (PosDef.Pos.compare_cont Eq a b) with (Pos.compare a b) in H;
      destruct (Pos.compare_spec a b)
  end; simpl in *; subst; try congruence; try lia.

Lemma SFcompare_refl s :
  SFcompare s s = match s with S754_nan => None | _ => Some Eq end.
Proof.
  destruct s as [b|b| |b m e]; simpl; try reflexivity;
    try (destruct b; reflexivity).
  rewrite Z.compare_refl, Pos.compare_cont_refl. destruct b; reflexivity.
Qed.

Lemma is_nan_spec x :
  is_nan x = match Prim2SF x with S754_nan => true | _ => false end.
Proof.
  unfold is_nan. rewrite eqb_spec. unfold SFeqb. rewrite SFcompare_refl.
  destruct (Prim2SF x); reflexivity.
Qed.

Lemma is_infinity_spec x :
  is_infinity x = match Prim2SF x with S754_infinity _ => true | _ => false end.
Proof.
  unfold is_infinity. rewrite eqb_spec, abs_spec. unfold SFeqb.
  change (Prim2SF infinity) with (S754_infinity false).
  destruct (Prim2SF x) as [b|b| |b m e]; reflexivity.
Qed.

Lemma is_finite_spec x : is_finite x = sf_finite (Prim2SF x).
Proof.
  unfold is_finite. rewrite is_nan_spec, is_infinity_spec.
  destruct (Prim2SF x); reflexivity.
Qed.

Lemma is_finite_not_nan x : is_finite x = true -> is_nan x = false.
Proof.
  rewrite is_finite_spec, is_nan_spec. destruct (Prim2SF x); simpl; congruence.
Qed.

Lemma is_nan_eq x : is_nan x = true -> x = nan.
Proof.
  rewrite is_nan_spec. intros H. apply Prim2SF_inj.
  change (Prim2SF nan) with S754_nan. destruct (Prim2SF x); congruence.
Qed.

Ltac by_spec_cases x y :=
  let a := fresh "a" in let b := fresh "b" in
  destruct (Prim2SF x) as [a|a| |a ? ?], (Prim2SF y) as [b|b| |b ? ?];
  simpl; try destruct a; try destruct b; simpl; auto; try discriminate.

(* A finite sum, difference or product has finite operands; a finite quotient
   has a finite numerator. *)
Lemma add_finite_inv x y :
  is_finite (x + y) = true -> is_finite x = true /\ is_finite y = true.
Proof. rewrite !is_finite_spec, add_spec. by_spec_cases x y. Qed.

Lemma sub_finite_inv x y :
  is_finite (x - y) = true -> is_finite x = true /\ is_finite y = true.
Proof. rewrite !is_finite_spec, sub_spec. by_spec_cases x y. Qed.

Lemma mul_finite_inv x y :
  is_finite (x * y) = true -> is_finite x = true /\ is_finite y = true.
Proof. rewrite !is_finite_spec, mul_spec. by_spec_cases x y. Qed.

Lemma div_finite_inv x y : is_finite (x / y) = true -> is_finite x = true.
Proof. rewrite !is_finite_spec, div_spec. by_spec_cases x y. Qed.

Lemma mul_nan_r x : x * nan = nan.
Proof.
  apply Prim2SF_inj. rewrite mul_spec. change (Prim2SF nan) with S754_nan.
  destruct (Prim2SF x); reflexivity.
Qed.

Lemma mul_nan_l x : nan * x = nan.
Proof.
  apply Prim2SF_inj. rewrite mul_spec. change (Prim2SF nan) with S754_nan.
  destruct (Prim2SF x); reflexivity.
Qed.

Lemma div_nan_r x : x / nan = nan.
Proof.
  apply Prim2SF_inj. rewrite div_spec. change (Prim2SF nan) with S754_nan.
  destruct (Prim2SF x); reflexivity.
Qed.

Lemma sub_nan_l x : nan - x = nan.
Proof.
  apply Prim2SF_inj. rewrite sub_spec. change (Prim2SF nan) with S754_nan.
  destruct (Prim2SF x); reflexivity.
Qed.

Lemma sub_nan_r x : x - nan = nan.
Proof.
  apply Prim2SF_inj. rewrite sub_spec. change (Prim2SF nan) with S754_nan.
  destruct (Prim2SF x); reflexivity.
Qed.

Lemma add_nan_l x : nan + x = nan.
Proof.
  apply Prim2SF_inj. rewrite add_spec. change (Prim2SF nan) with S754_nan.
  destruct (Prim2SF x); reflexivity.
Qed.

Lemma add_nan_r x : x + nan = nan.
Proof.
  apply Prim2SF_inj. rewrite add_spec. change (Prim2SF nan) with S754_nan.
  destruct (Prim2SF x); reflexivity.
Qed.

Lemma SFcompare_antisym x y :
  SFcompare y x = option_map CompOpp (SFcompare x y).
Proof.
  destruct x as [a|a| |a m e], y as [b|b| |b n f]; simpl; try reflexivity;
    sf_cases; cmp_cases.
Qed.

Lemma SFleb_false_ltb x y :
  SFcompare x y <> None -> SFleb x y = false -> SFltb y x = true.
Proof.
  unfold SFleb, SFltb. rewrite (SFcompare_antisym x y).
  destruct (SFcompare x y) as [[]|]; simpl; congruence.
Qed.

Lemma SFleb_ltb_trans x y z :
  SFleb x y = true -> SFltb y z = true -> SFltb x z = true.
Proof.
  unfold SFleb, SFltb.
  destruct x as [a|a| |a m e], y as [b|b| |b n f], z as [c|c| |c p g];
    simpl; try congruence; sf_cases; cmp_cases.
Qed.

Lemma SFltb_leb_trans x y z :
  SFltb x y = true -> SFleb y z = true -> SFltb x z = true.
Proof.
  unfold SFleb, SFltb.
  destruct x as [a|a| |a m e], y as [b|b| |b n f], z as [c|c| |c p g];
    simpl; try congruence; sf_cases; cmp_cases.
Qed.

(* Nothing is below minus infinity, nor below a NaN. *)
Lemma ltb_neg_infinity x : (x <? neg_infinity) = false.
Proof.
  rewrite ltb_spec. change (Prim2SF neg_infinity) with (S754_infinity true).
  destruct (Prim2SF x) as [a|a| |a m e]; try reflexivity; destruct a; reflexivity.
Qed.

Lemma ltb_nan_r x : (x <? nan) = false.
Proof.
  rewrite ltb_spec. change (Prim2SF nan) with S754_nan.
  destruct (Prim2SF x) as [a|a| |a m e]; reflexivity.
Qed.

Lemma sub_neg_infinity y :
  neg_infinity - y = neg_infinity \/ neg_infinity - y = nan.
Proof.
  assert (H : Prim2SF (neg_infinity - y) = S754_infinity true \/
              Prim2SF (neg_infinity - y) = S754_nan).
  { rewrite sub_spec. change (Prim2SF neg_infinity) with (S754_infinity true).
    destruct (Prim2SF y) as [a|a| |a m e]; simpl; auto; destruct a; auto. }
  destruct H as [H|H]; [left|right]; apply Prim2SF_inj; rewrite H; reflexivity.
Qed.

Lemma ltb_sub_neg_infinity u c : (u <? neg_infinity - c) = false.
Proof.
  destruct (sub_neg_infinity c) as [H|H]; rewrite H;
    [apply ltb_neg_infinity | apply ltb_nan_r].
Qed.

Lemma leb_ltb_trans x y z :
  (x <=? y) = true -> (y <? z) = true -> (x <? z) = true.
Proof. rewrite leb_spec, !ltb_spec. apply SFleb_ltb_trans. Qed.

Lemma ltb_leb_trans x y z :
  (x <? y) = true -> (y <=? z) = true -> (x <? z) = true.
Proof. rewrite leb_spec, !ltb_spec. apply SFltb_leb_trans. Qed.

Lemma leb_false_ltb x y :
  is_nan x = false -> is_nan y = false -> (x <=? y) = false -> (y <? x) = true.
Proof.
  rewrite !is_nan_spec, leb_spec, ltb_spec. intros Hx Hy.
  apply SFleb_false_ltb.
  destruct (Prim2SF x), (Prim2SF y); simpl; congruence.
Qed.

Lemma leb_ltb_false x y : (x <=? y) = true -> (y <? x) = false.
Proof.
  rewrite leb_spec, ltb_spec. unfold SFleb, SFltb.
  rewrite (SFcompare_antisym (Prim2SF x) (Prim2SF y)).
  destruct (SFcompare (Prim2SF x) (Prim2SF y)) as [[]|]; simpl; congruence.
Qed.

Lemma leb_refl_of_leb a b : (a <=? b) = true -> (a <=? a) = true.
Proof.
  rewrite !leb_spec. unfold SFleb. rewrite SFcompare_refl.
  destruct (Prim2SF a), (Prim2SF b); simpl; congruence.
Qed.

Lemma between_finite a x b :
  is_finite a = true -> is_finite b = true ->
  (a <=? x) = true -> (x <=? b) = true -> is_finite x = true.
Proof.
  rewrite !is_finite_spec, !leb_spec. unfold SFleb.
  destruct (Prim2SF a) as [sa|sa| |sa ma ea], (Prim2SF x) as [s|s| |s m e],
    (Prim2SF b) as [sb|sb| |sb mb eb]; simpl; try congruence; sf_cases.
Qed.

End IEEEFacts.
Import IEEEFacts.

(** ** Outcome plumbing *)

Lemma bind_Done {A B : Type} (m : outcome A) (k : A -> outcome B) (b : B) :
  bind m k = Done b -> exists a, m = Done a /\ k a = Done b.
Proof. destruct m; simpl; try discriminate. eauto. Qed.

(* Split a hypothesis [x <- m ;; k = Done b] into its two halves. *)
Ltac inv_bind H :=
  let a := fresh "a" in
  let H1 := fresh H "l" in
  let H2 := fresh H "r" in
  apply bind_Done in H; destruct H as (a & H1 & H2).

Lemma vec_at_Done {A : Type} (v : list A) (i : Z) (a : A) :
  vec_at v i = Done a <-> (0 <= i)%Z /\ nth_error v (Z.to_nat i) = Some a.
Proof.
  unfold vec_at. destruct (Z.ltb_spec i 0).
  - split; [discriminate | lia].
  - destruct (nth_error v (Z.to_nat i)); split; intros; intuition congruence.
Qed.

Lemma vec_at_in_range {A : Type} (v : list A) (i : Z) :
  (0 <= i < vec_size v)%Z -> exists a, vec_at v i = Done a.
Proof.
  unfold vec_size. intros H. unfold vec_at.
  destruct (Z.ltb_spec i 0); [lia|].
  destruct (nth_error v (Z.to_nat i)) eqn:E; eauto.
  apply nth_error_None in E. lia.
Qed.

Lemma vec_at_app_here {A : Type} (pre : list A) (a : A) (post : list A) :
  vec_at (pre ++ a :: post) (vec_size pre) = Done a.
Proof.
  apply vec_at_Done. unfold vec_size. split; [lia|].
  rewrite Nat2Z.id, nth_error_app2, Nat.sub_diag by lia. reflexivity.
Qed.

(** ** The log-likelihood loop *)

Section LogLikelihood.
Context {L : Libm}.
Local Open Scope float_scope.

Lemma last_cons_default {A : Type} (l : list A) (a d d' : A) :
  last (a :: l) d = last (a :: l) d'.
Proof.
  revert a. induction l as [|b l IH]; intros a; [reflexivity|].
  change (last (b :: l) d = last (b :: l) d'). apply IH.
Qed.

Lemma sum_or_neg_infinity_cons acc t ts :
  sum_or_neg_infinity acc (t :: ts) =
  if is_finite (acc + t) then sum_or_neg_infinity (acc + t) ts else neg_infinity.
Proof.
  unfold sum_or_neg_infinity. simpl.
  destruct (is_finite (acc + t)); simpl; [|reflexivity].
  destruct (forallb is_finite (partial_sums (acc + t) ts)); [|reflexivity].
  destruct (partial_sums (acc + t) ts) as [|s sums]; [reflexivity|].
  change (last (s :: sums) acc = last (s :: sums) (acc + t)).
  apply last_cons_default.
Qed.

Lemma log_likelihood_loop_spec p ts ys :
  forall count pre_t pre_y ll,
  length pre_t = length pre_y ->
  (count <= length ts)%nat -> (count <= length ys)%nat ->
  log_likelihood_loop p (mkData (pre_t ++ ts) (pre_y ++ ys) 0) count
    (vec_size pre_t) ll
  = Done (sum_or_neg_infinity ll
            (map (fun ty => log_bernoulli_pmf (snd ty) (prob_infection p (fst ty)))
                 (firstn count (combine ts ys)))).
Proof.
  revert ys. induction ts as [|t ts IH]; intros ys count pre_t pre_y ll Hlen Ht Hy.
  - assert (count = O) by (simpl in Ht; lia). subst. reflexivity.
  - destruct count as [|count]; [reflexivity|].
    destruct ys as [|y ys]; [simpl in Hy; lia|].
    simpl log_likelihood_loop. simpl titre. simpl infected.
    rewrite (vec_at_app_here pre_t t ts). simpl bind.
    replace (vec_size pre_t) with (vec_size pre_y) at 1
      by (unfold vec_size; congruence).
    rewrite (vec_at_app_here pre_y y ys). simpl bind.
    simpl firstn. simpl map. rewrite sum_or_neg_infinity_cons.
    destruct (is_finite (ll + log_bernoulli_pmf y (prob_infection p t))); simpl;
      [|reflexivity].
    specialize (IH ys count (pre_t ++ [t]) (pre_y ++ [y])
                  (ll + log_bernoulli_pmf y (prob_infection p t))).
    rewrite <- !app_assoc in IH. simpl in IH.
    replace (vec_size pre_t + 1)%Z with (vec_size (pre_t ++ [t]))
      by (unfold vec_size; rewrite length_app; simpl; lia).
    apply IH.
    + rewrite !length_app. simpl. lia.
    + simpl in Ht. lia.
    + simpl in Hy. lia.
Qed.

Lemma log_likelihood_loop_N p data n count i ll :
  log_likelihood_loop p (mkData (titre data) (infected data) n) count i ll
  = log_likelihood_loop p data count i ll.
Proof.
  revert i ll. induction count as [|count IH]; intros; simpl; [reflexivity|].
  destruct (vec_at (titre data) i); simpl; try reflexivity.
  destruct (vec_at (infected data) i); simpl; try reflexivity.
  rewrite IH. reflexivity.
Qed.

Lemma log_likelihood_spec p data :
  data_in_bounds data ->
  log_likelihood p data = Done (sum_or_neg_infinity 0 (bernoulli_terms p data)).
Proof.
  intros [Ht Hy]. unfold log_likelihood, bernoulli_terms.
  rewrite <- (log_likelihood_loop_N p data 0).
  apply (log_likelihood_loop_spec p (titre data) (infected data)
           (Z.to_nat (N data)) [] [] 0); unfold vec_size in *; simpl; lia.
Qed.

End LogLikelihood.

(** ** The domain of the parameters, and what a step does *)

Section Domain.
Context {L : Libm} {R : RandomSource}.
Local Open Scope float_scope.

Lemma in_domain_spec p : in_domain p = true <-> theta_ok p.
Proof.
  unfold in_domain, theta_ok. rewrite !andb_true_iff. tauto.
Qed.

Lemma all_in_domain_spec pt :
  all_in_domain pt = true <-> ensemble_ok pt.
Proof.
  unfold all_in_domain, ensemble_ok. rewrite forallb_forall, Forall_forall.
  split; intros H c Hc; apply in_domain_spec, H, Hc.
Qed.

Lemma not_finite_neg_infinity : is_finite neg_infinity = false.
Proof. reflexivity. Qed.

Lemma not_finite_nan : is_finite nan = false.
Proof. reflexivity. Qed.

Lemma log_beta_pdf_finite x a b :
  is_finite (log_beta_pdf x a b) = true -> (0 <? x) = true /\ (x <? 1) = true.
Proof.
  unfold log_beta_pdf.
  destruct ((x <=? 0) || (1 <=? x)) eqn:G.
  - rewrite not_finite_neg_infinity. discriminate.
  - apply orb_false_iff in G. destruct G as [G0 G1]. intros Hfin.
    destruct (is_nan x) eqn:Hnan.
    + apply is_nan_eq in Hnan. subst x.
      rewrite log_nan, mul_nan_r, add_nan_l, not_finite_nan in Hfin. discriminate.
    + split; apply leb_false_ltb; auto.
Qed.

Lemma log_normal_pdf_finite x m s :
  is_finite (log_normal_pdf x m s) = true -> is_finite x = true.
Proof.
  unfold log_normal_pdf. intros H.
  apply sub_finite_inv in H. destruct H as [H _].
  apply sub_finite_inv in H. destruct H as [H _].
  apply mul_finite_inv in H. destruct H as [_ H].
  apply div_finite_inv in H. apply sub_finite_inv in H. tauto.
Qed.

Lemma log_truncated_normal_pdf_finite x m s :
  is_finite (log_truncated_normal_pdf x m s) = true -> (0 <? x) = true.
Proof.
  unfold log_truncated_normal_pdf. destruct (x <=? 0) eqn:G.
  - rewrite not_finite_neg_infinity. discriminate.
  - intros H.
    apply sub_finite_inv in H. destruct H as [H _].
    apply sub_finite_inv in H. destruct H as [H _].
    apply sub_finite_inv in H. destruct H as [H _].
    apply mul_finite_inv in H. destruct H as [_ H].
    apply div_finite_inv in H. apply sub_finite_inv in H. destruct H as [H _].
    apply leb_false_ltb; auto using is_finite_not_nan.
Qed.

Lemma log_prior_finite p priors :
  is_finite (log_prior p priors) = true -> theta_ok p.
Proof.
  unfold log_prior. intros H.
  apply add_finite_inv in H. destruct H as [H Hs].
  apply add_finite_inv in H. destruct H as [H He].
  apply add_finite_inv in H. destruct H as [H Hc].
  apply add_finite_inv in H. destruct H as [_ Hf].
  apply log_beta_pdf_finite in Hf, Hc.
  apply log_normal_pdf_finite in He.
  apply log_truncated_normal_pdf_finite in Hs.
  unfold theta_ok. tauto.
Qed.

Lemma log_posterior_tempered_inv p d priors T v :
  log_posterior_tempered p d priors T = Done v ->
  v = neg_infinity \/ theta_ok p.
Proof.
  unfold log_posterior_tempered.
  destruct (is_finite (log_prior p priors)) eqn:Hlp; simpl.
  - intros _. right. apply log_prior_finite with priors. exact Hlp.
  - intros H. left. congruence.
Qed.

(* What a step does to the chain, read off the code. *)
Lemma step_inv fuel d priors c g c' g' :
  MCMCChain.step fuel d priors c g = Done (c', g') ->
  exists proposed pd g1 plp,
    ProposalDistribution.propose fuel (MCMCChain.proposal c) (MCMCChain.current c) g
      = Done (proposed, pd, g1) /\
    log_posterior_tempered proposed d priors (MCMCChain.temperature c) = Done plp /\
    let u := fst (uniform_real 0 1 g1) in
    let accept := log u <? plp - MCMCChain.current_log_posterior c in
    g' = snd (uniform_real 0 1 g1) /\
    MCMCChain.current c' = (if accept then proposed else MCMCChain.current c) /\
    MCMCChain.current_log_posterior c' =
      (if accept then plp else MCMCChain.current_log_posterior c) /\
    MCMCChain.accepted c' =
      (if accept then MCMCChain.accepted c + 1 else MCMCChain.accepted c)%Z /\
    MCMCChain.total c' = (MCMCChain.total c + 1)%Z /\
    MCMCChain.temperature c' = MCMCChain.temperature c /\
    MCMCChain.samples c' = MCMCChain.samples c ++ [MCMCChain.current c'].
Proof.
  unfold MCMCChain.step. intros H.
  inv_bind H. destruct a as [[proposed pd] g1].
  inv_bind Hr. rename a into plp.
  destruct (uniform_real 0 1 g1) as [u g2] eqn:Eu.
  injection Hrr as Hc Hg. subst c' g'.
  exists proposed, pd, g1, plp. rewrite Eu. simpl.
  repeat split; auto.
Qed.

Lemma step_rejects_neg_infinity fuel d priors c g c' g' proposed pd g1 :
  ProposalDistribution.propose fuel (MCMCChain.proposal c) (MCMCChain.current c) g
    = Done (proposed, pd, g1) ->
  log_posterior_tempered proposed d priors (MCMCChain.temperature c)
    = Done neg_infinity ->
  MCMCChain.step fuel d priors c g = Done (c', g') ->
  MCMCChain.current c' = MCMCChain.current c /\
  MCMCChain.current_log_posterior c' = MCMCChain.current_log_posterior c /\
  MCMCChain.accepted c' = MCMCChain.accepted c.
Proof.
  intros Hp Hlp Hs. apply step_inv in Hs.
  destruct Hs as (proposed' & pd' & g1' & plp & Hp' & Hlp' & Hs).
  rewrite Hp in Hp'. injection Hp' as <- <- <-.
  rewrite Hlp in Hlp'. injection Hlp' as <-.
  cbv zeta in Hs. rewrite ltb_sub_neg_infinity in Hs. tauto.
Qed.

Lemma step_preserves_domain fuel d priors c g c' g' :
  theta_ok (MCMCChain.current c) ->
  MCMCChain.step fuel d priors c g = Done (c', g') ->
  theta_ok (MCMCChain.current c').
Proof.
  intros Hok Hs. apply step_inv in Hs.
  destruct Hs as (proposed & pd & g1 & plp & Hp & Hlp & Hs).
  cbv zeta in Hs. destruct Hs as (_ & Hc & _). rewrite Hc.
  destruct (log (fst (uniform_real 0 1 g1)) <? plp - MCMCChain.current_log_posterior c)
    eqn:Hacc; [|exact Hok].
  apply log_posterior_tempered_inv in Hlp. destruct Hlp as [-> | Hok']; [|exact Hok'].
  rewrite ltb_sub_neg_infinity in Hacc. discriminate.
Qed.

End Domain.

Lemma length_list_set {A : Type} (v : list A) (i : nat) (a : A) :
  length (list_set v i a) = length v.
Proof.
  revert i. induction v as [|b v IH]; intros [|i]; simpl; auto.
Qed.

Lemma Forall_list_set {A : Type} (P : A -> Prop) (v : list A) (i : nat) (a : A) :
  Forall P v -> P a -> Forall P (list_set v i a).
Proof.
  intros Hv Ha. revert i. induction Hv as [|b v Hb Hv IH]; intros [|i]; simpl; auto.
Qed.


Lemma vec_set_in_range {A : Type} (v : list A) (i : Z) (a : A) :
  (0 <= i < vec_size v)%Z -> vec_set v i a = Done (list_set v (Z.to_nat i) a).
Proof.
  unfold vec_set, vec_size. intros H.
  destruct (Z.ltb_spec i 0); [lia|].
  destruct (Z.leb_spec (Z.of_nat (length v)) i); [lia|]. reflexivity.
Qed.

Lemma vec_set_Done {A : Type} (v : list A) (i : Z) (a : A) (v' : list A) :
  vec_set v i a = Done v' ->
  (0 <= i < vec_size v)%Z /\ v' = list_set v (Z.to_nat i) a.
Proof.
  unfold vec_set, vec_size.
  destruct (Z.ltb_spec i 0); simpl; [discriminate|].
  destruct (Z.leb_spec (Z.of_nat (length v)) i); simpl; [discriminate|].
  intros H'. injection H' as <-. split; [lia | reflexivity].
Qed.

Lemma vec_at_Forall {A : Type} (P : A -> Prop) (v : list A) (i : Z) (a : A) :
  Forall P v -> vec_at v i = Done a -> P a.
Proof.
  intros Hv H. apply vec_at_Done in H. destruct H as [_ H].
  apply nth_error_In in H. rewrite Forall_forall in Hv. auto.
Qed.

(** ** The ensemble: steps of all chains, swap attempts, turns of [run] *)

Section Ensemble.
Context {L : Libm} {R : RandomSource}.
Local Open Scope float_scope.
Import ParallelTemperingMCMC.

Lemma log_posterior_tempered_value p d priors T :
  data_in_bounds d ->
  log_posterior_tempered p d priors T = Done (tempered p d priors T).
Proof.
  intros Hd. unfold log_posterior_tempered, tempered.
  destruct (is_finite (log_prior p priors)); simpl; [|reflexivity].
  rewrite (log_likelihood_spec p d Hd). simpl.
  destruct (is_finite (sum_or_neg_infinity 0 (bernoulli_terms p d))); reflexivity.
Qed.


Lemma set_current_inv p d priors c c' :
  MCMCChain.set_current p d priors c = Done c' ->
  MCMCChain.current c' = p /\
  MCMCChain.temperature c' = MCMCChain.temperature c /\
  MCMCChain.samples c' = MCMCChain.samples c.
Proof.
  unfold MCMCChain.set_current. intros H. inv_bind H.
  injection Hr as <-. simpl. auto.
Qed.

Lemma step_all_length fuel d priors cs g cs' g' :
  step_all fuel d priors cs g = Done (cs', g') -> length cs' = length cs.
Proof.
  revert g cs' g'. induction cs as [|c cs IH]; intros g cs' g' H; simpl in H.
  - injection H as <- _. reflexivity.
  - inv_bind H. destruct a as [c1 g1]. inv_bind Hr. destruct a as [rest g2].
    injection Hrr as <- _. simpl. f_equal. eapply IH. eassumption.
Qed.

Lemma step_all_preserves_domain fuel d priors cs g cs' g' :
  Forall (fun c => theta_ok (MCMCChain.current c)) cs ->
  step_all fuel d priors cs g = Done (cs', g') ->
  Forall (fun c => theta_ok (MCMCChain.current c)) cs'.
Proof.
  intros Hok. revert g cs' g'.
  induction Hok as [|c cs Hc Hcs IH]; intros g cs' g' H; simpl in H.
  - injection H as <- _. constructor.
  - inv_bind H. destruct a as [c1 g1]. inv_bind Hr. destruct a as [rest g2].
    injection Hrr as <- _. constructor.
    + eapply step_preserves_domain; eassumption.
    + eapply IH. eassumption.
Qed.

(* What a swap attempt does, read off the code. *)
Lemma attempt_swap_inv pt g pt' g' :
  attempt_swap pt g = Done (pt', g') ->
  swap_total pt' = (swap_total pt + 1)%Z /\
  num_chains pt' = num_chains pt /\
  temperatures pt' = temperatures pt /\
  data pt' = data pt /\ priors pt' = priors pt /\
  length (chains pt') = length (chains pt) /\
  (ensemble_ok pt -> ensemble_ok pt').
Proof.
  unfold attempt_swap. intros H.
  destruct (uniform_int 0 (num_chains pt - 2) g) as [i g1].
  inv_bind H. rename a into ci. inv_bind Hr. rename a into cj.
  inv_bind Hrr. rename a into tj. inv_bind Hrrr. rename a into ti.
  destruct (uniform_real 0 1 g1) as [u g2].
  destruct (log u <? _).
  - inv_bind Hrrrr. rename a into ci'. inv_bind Hrrrrr. rename a into cs1.
    inv_bind Hrrrrrr. rename a into cj0. inv_bind Hrrrrrrr. rename a into cj'.
    inv_bind Hrrrrrrrr. rename a into cs2.
    injection Hrrrrrrrrr as <- _. simpl.
    apply vec_set_Done in Hrrrrrl, Hrrrrrrrrl.
    destruct Hrrrrrl as [_ ->], Hrrrrrrrrl as [_ ->].
    rewrite !length_list_set. repeat split; auto.
    unfold ensemble_ok. simpl. intros Hok.
    apply set_current_inv in Hrrrrl, Hrrrrrrrl.
    apply Forall_list_set; [apply Forall_list_set; [exact Hok|]|].
    + destruct Hrrrrl as [-> _]. unfold MCMCChain.get_current.
      eapply (vec_at_Forall (fun c => theta_ok (MCMCChain.current c))); eassumption.
    + destruct Hrrrrrrrl as [-> _]. unfold MCMCChain.get_current.
      eapply (vec_at_Forall (fun c => theta_ok (MCMCChain.current c))); eassumption.
  - injection Hrrrr as <- _. simpl. repeat split; auto.
Qed.

Lemma iteration_inv fuel iter pt g pt' g' :
  iteration fuel iter pt g = Done (pt', g') ->
  swap_total pt' = (swap_total pt + (if swap_due iter pt then 1 else 0))%Z /\
  num_chains pt' = num_chains pt /\
  temperatures pt' = temperatures pt /\
  data pt' = data pt /\ priors pt' = priors pt /\
  length (chains pt') = length (chains pt) /\
  (ensemble_ok pt -> ensemble_ok pt').
Proof.
  unfold iteration, swap_due. intros H. inv_bind H. destruct a as [cs g1].
  simpl in Hr.
  pose proof (step_all_length _ _ _ _ _ _ _ Hl) as Hlen.
  pose proof (fun Hok => step_all_preserves_domain _ _ _ _ _ _ _ Hok Hl) as Hdom.
  destruct ((Z.rem iter 10 =? 0) && (1 <? num_chains pt))%Z.
  - apply attempt_swap_inv in Hr. simpl in Hr.
    destruct Hr as (H1 & H2 & H3 & H4 & H5 & H6 & H7).
    repeat split; auto; try congruence. intros Hok. apply H7. apply Hdom, Hok.
  - injection Hr as <- _. simpl. repeat split; auto; lia.
Qed.

Lemma run_loop_preserves_domain fuel count :
  forall iter pt g pt' g',
  ensemble_ok pt ->
  run_loop fuel count iter pt g = Done (pt', g') -> ensemble_ok pt'.
Proof.
  induction count as [|count IH]; intros iter pt g pt' g' Hok H; simpl in H.
  - injection H as <- _. exact Hok.
  - inv_bind H. destruct a as [pt1 g1].
    apply iteration_inv in Hl. eapply IH; [|eassumption]. tauto.
Qed.

End Ensemble.

Lemma list_set_app_here {A : Type} (pre : list A) (b a : A) (post : list A) (n : nat) :
  n = length pre -> list_set (pre ++ b :: post) n a = pre ++ a :: post.
Proof.
  intros ->. induction pre as [|x pre IH]; simpl; [reflexivity | now rewrite IH].
Qed.

(** ** Construction: the ladder and the initial chains *)

Section Construction.
Context {L : Libm} {R : RandomSource}.
Local Open Scope float_scope.
Import ParallelTemperingMCMC.

Lemma ladder_loop_spec K count :
  forall i,
  ladder_loop count (Z.of_nat i) K (map (ladder_entry K) (seq 0 i) ++ repeat 0 count)
  = Done (map (ladder_entry K) (seq 0 (i + count))).
Proof.
  induction count as [|count IH]; intros i; simpl.
  - rewrite app_nil_r, Nat.add_0_r. reflexivity.
  - rewrite vec_set_in_range
      by (unfold vec_size; rewrite length_app, length_map, length_seq; simpl; lia).
    simpl bind. rewrite Nat2Z.id.
    rewrite list_set_app_here by (rewrite length_map, length_seq; reflexivity).
    replace (Z.of_nat i + 1)%Z with (Z.of_nat (S i)) by lia.
    specialize (IH (S i)). rewrite seq_S, map_app, <- app_assoc in IH.
    cbn [map app Nat.add] in IH.
    fold (ladder_entry K i). rewrite IH. rewrite Nat.add_succ_r. reflexivity.
Qed.

Lemma ladder_loop_from_zero K :
  ladder_loop (Z.to_nat K) 0 K (repeat 0 (Z.to_nat K)) = Done (geometric_ladder K).
Proof. apply (ladder_loop_spec K (Z.to_nat K) 0%nat). Qed.

Lemma length_geometric_ladder K : length (geometric_ladder K) = Z.to_nat K.
Proof. unfold geometric_ladder. rewrite length_map, length_seq. reflexivity. Qed.

(* The start of a chain lies in the domain: the ranges of the four draws. *)
Lemma initial_draws_ok g :
  let '(f, g) := uniform_real 0.01 0.5 g in
  let '(c, g) := uniform_real 0.1 0.9 g in
  let '(e, g) := uniform_real (-2.0) 2.0 g in
  let '(s, g) := uniform_real 0.1 3.0 g in
  theta_ok (mkParams f c e s).
Proof.
  pose proof (uniform_real_range 0.01 0.5 g eq_refl) as Hf.
  destruct (uniform_real 0.01 0.5 g) as [f g1]. simpl in Hf.
  pose proof (uniform_real_range 0.1 0.9 g1 eq_refl) as Hc.
  destruct (uniform_real 0.1 0.9 g1) as [c g2]. simpl in Hc.
  pose proof (uniform_real_range (-2.0) 2.0 g2 eq_refl) as He.
  destruct (uniform_real (-2.0) 2.0 g2) as [e g3]. simpl in He.
  pose proof (uniform_real_range 0.1 3.0 g3 eq_refl) as Hs.
  destruct (uniform_real 0.1 3.0 g3) as [s g4]. simpl in Hs.
  unfold theta_ok. simpl.
  repeat split.
  - apply ltb_leb_trans with 0.01; [reflexivity | tauto].
  - apply leb_ltb_trans with 0.5; [tauto | reflexivity].
  - apply ltb_leb_trans with 0.1; [reflexivity | tauto].
  - apply leb_ltb_trans with 0.9; [tauto | reflexivity].
  - apply ltb_leb_trans with 0.1; [reflexivity | tauto].
  - apply between_finite with (-2.0) 2.0; try reflexivity; tauto.
Qed.

Lemma init_loop_inv count :
  forall i temps d p cs g cs' g',
  init_loop count i temps d p cs g = Done (cs', g') ->
  length cs' = (length cs + count)%nat /\
  (Forall (fun c => theta_ok (MCMCChain.current c)) cs ->
   Forall (fun c => theta_ok (MCMCChain.current c)) cs').
Proof.
  induction count as [|count IH]; intros i temps d p cs g cs' g' H; simpl in H.
  - injection H as <- _. split; [lia | auto].
  - pose proof (initial_draws_ok g) as Hd.
    destruct (uniform_real 0.01 0.5 g) as [f g1].
    destruct (uniform_real 0.1 0.9 g1) as [c g2].
    destruct (uniform_real (-2.0) 2.0 g2) as [e g3].
    destruct (uniform_real 0.1 3.0 g3) as [s g4].
    inv_bind H. rename a into temp. inv_bind Hr. rename a into chain.
    apply IH in Hrr. destruct Hrr as [Hlen Hok].
    rewrite length_app in Hlen. simpl in Hlen. split; [lia|].
    intros Hcs. apply Hok. apply Forall_app. split; [exact Hcs|].
    constructor; [|constructor].
    unfold MCMCChain.new in Hrl. inv_bind Hrl. injection Hrlr as <-. exact Hd.
Qed.


Lemma construct_inv K d p g pt g' :
  construct K d p g = Done (pt, g') ->
  (0 <= K)%Z /\
  temperatures pt = geometric_ladder K /\
  length (chains pt) = Z.to_nat K /\
  num_chains pt = K /\ data pt = d /\ priors pt = p /\
  swap_accepted pt = 0%Z /\ swap_total pt = 0%Z /\
  ensemble_ok pt.
Proof.
  unfold construct. destruct (Z.ltb_spec K 0); [discriminate|].
  rewrite ladder_loop_from_zero. simpl. intros H'.
  inv_bind H'. destruct a as [cs g1]. injection H'r as <- _. simpl.
  apply init_loop_inv in H'l. destruct H'l as [Hlen Hok].
  repeat split; auto. apply Hok. constructor.
Qed.

Lemma construct_well_formed K d p g pt g' :
  data_in_bounds d -> construct K d p g = Done (pt, g') -> well_formed pt.
Proof.
  intros Hd H. apply construct_inv in H.
  destruct H as (HK & Ht & Hlen & Hn & Hdata & _).
  unfold well_formed, vec_size. rewrite Ht, Hlen, length_geometric_ladder, Hn, Hdata.
  repeat split; try lia; apply Hd.
Qed.

Lemma iteration_well_formed fuel iter pt g pt' g' :
  well_formed pt -> iteration fuel iter pt g = Done (pt', g') -> well_formed pt'.
Proof.
  intros (Hc & Ht & Hd) H. apply iteration_inv in H.
  destruct H as (_ & Hn & Ht' & Hd' & _ & Hlen & _).
  unfold well_formed, vec_size in *. rewrite Hn, Ht', Hd', Hlen. auto.
Qed.

Lemma run_loop_well_formed fuel count :
  forall iter pt g pt' g',
  well_formed pt -> run_loop fuel count iter pt g = Done (pt', g') ->
  well_formed pt'.
Proof.
  induction count as [|count IH]; intros iter pt g pt' g' Hwf H; simpl in H.
  - injection H as <- _. exact Hwf.
  - inv_bind H. destruct a as [pt1 g1].
    apply (IH (iter + 1)%Z pt1 g1 pt' g'); [|exact Hr].
    eapply iteration_well_formed; eassumption.
Qed.

Lemma session_well_formed fuel seed K d p ns g0 pt g :
  data_in_bounds d -> session fuel seed K d p ns g0 = Done (pt, g) ->
  well_formed pt.
Proof.
  intros Hd H. unfold session in H. inv_bind H. destruct a as [pt0 g1].
  apply (construct_well_formed _ _ _ _ _ _ Hd) in Hl.
  revert pt0 g1 Hl Hr. induction ns as [|n ns IH]; intros pt0 g1 Hwf H; simpl in H.
  - injection H as <- _. exact Hwf.
  - inv_bind H. destruct a as [pt1 g2]. apply (IH pt1 g2); [|exact Hr].
    eapply run_loop_well_formed; eassumption.
Qed.


End Construction.


(** ** The swap attempt *)

Section Swap.
Context {L : Libm} {R : RandomSource}.
Local Open Scope float_scope.
Import ParallelTemperingMCMC.


(* Outside the cadence, or with a single chain, the turn draws nothing more
   and leaves the counters alone. *)
Lemma iteration_without_swap fuel iter pt g cs g1 :
  swap_due iter pt = false ->
  step_all fuel (data pt) (priors pt) (chains pt) g = Done (cs, g1) ->
  iteration fuel iter pt g =
  Done (mk cs (temperatures pt) (data pt) (priors pt) (num_chains pt)
           (swap_accepted pt) (swap_total pt), g1).
Proof.
  unfold swap_due, iteration. intros Hdue Hstep. rewrite Hstep. simpl bind.
  cbn [num_chains]. rewrite Hdue. reflexivity.
Qed.

End Swap.

Lemma bind_assoc {A B C : Type} (m : outcome A) (k : A -> outcome B)
    (h : B -> outcome C) :
  bind (bind m k) h = bind m (fun a => bind (k a) h).
Proof. destruct m; reflexivity. Qed.

(** ** The swap cadence *)

Section Cadence.
Context {L : Libm} {R : RandomSource}.
Local Open Scope Z_scope.
Import ParallelTemperingMCMC.

Lemma run_loop_app fuel c1 c2 :
  forall iter pt g,
  run_loop fuel (c1 + c2) iter pt g =
  ('(p, g') <- run_loop fuel c1 iter pt g ;;
   run_loop fuel c2 (iter + Z.of_nat c1) p g').
Proof.
  induction c1 as [|c1 IH]; intros iter pt g.
  - simpl. rewrite Z.add_0_r. reflexivity.
  - cbn [Nat.add run_loop]. rewrite bind_assoc.
    destruct (iteration fuel iter pt g) as [[p1 g1]| | |]; simpl; try reflexivity.
    rewrite IH. replace (iter + 1 + Z.of_nat c1) with (iter + Z.of_nat (S c1)) by lia.
    reflexivity.
Qed.

(* The turn of index [k] of a call [run(n)] starts from the state [run(k)]
   leaves. *)
Lemma run_turn fuel n k pt g pk gk :
  0 <= k < n ->
  run fuel k pt g = Done (pk, gk) ->
  run fuel n pt g =
  ('(p, g') <- iteration fuel k pk gk ;;
   run_loop fuel (Z.to_nat (n - k - 1)) (k + 1) p g').
Proof.
  unfold run. intros Hk Hrun.
  replace (Z.to_nat n) with (Z.to_nat k + S (Z.to_nat (n - k - 1)))%nat by lia.
  rewrite run_loop_app, Hrun. simpl bind. rewrite Z2Nat.id by lia. reflexivity.
Qed.

Lemma run_loop_inv fuel count :
  forall iter pt g pt' g',
  0 <= iter -> 1 < num_chains pt ->
  run_loop fuel count iter pt g = Done (pt', g') ->
  num_chains pt' = num_chains pt /\
  swap_total pt' =
    swap_total pt + ((iter + Z.of_nat count + 9) / 10 - (iter + 9) / 10).
Proof.
  induction count as [|count IH]; intros iter pt g pt' g' Hiter HK H; simpl in H.
  - injection H as <- _. split; [reflexivity|].
    replace (iter + Z.of_nat 0 + 9) with (iter + 9) by lia. lia.
  - inv_bind H. destruct a as [p1 g1].
    apply iteration_inv in Hl. destruct Hl as (Hst & Hn & _).
    apply IH in Hr; [|lia|lia]. destruct Hr as [Hn' Hst'].
    split; [congruence|]. rewrite Hst', Hst. unfold swap_due.
    rewrite Z.rem_mod_nonneg by lia.
    replace (1 <? num_chains pt) with true by (symmetry; apply Z.ltb_lt; lia).
    rewrite andb_true_r.
    destruct (Z.eqb_spec (iter mod 10) 0) as [E|E];
      pose proof (Z.mod_pos_bound iter 10 ltac:(lia));
      Z.div_mod_to_equations; lia.
Qed.

(* The cadence of the swaps depends on the index of the turn through its
   remainder by 10 only. *)
Lemma run_loop_shift fuel count :
  forall iter k pt g,
  0 <= iter -> 0 <= k -> k mod 10 = 0 ->
  run_loop fuel count (iter + k) pt g = run_loop fuel count iter pt g.
Proof.
  induction count as [|count IH]; intros iter k pt g Hi Hk Hm; simpl;
    [reflexivity|].
  assert (E : iteration fuel (iter + k) pt g = iteration fuel iter pt g).
  { unfold iteration. rewrite !Z.rem_mod_nonneg by lia.
    rewrite <- Zplus_mod_idemp_r, Hm, Z.add_0_r. reflexivity. }
  rewrite E. destruct (iteration fuel iter pt g) as [[pt1 g1]| | |]; simpl;
    try reflexivity.
  replace (iter + k + 1) with (iter + 1 + k) by lia. apply IH; lia.
Qed.

(** C10, as the code has it: the swap cadence is counted from the start of
    each call of [run]: (a) the turn of index [k] of a call starts from the
    state [run(k)] leaves and attempts a swap exactly when [k] is a multiple
    of 10, so the first turn of every call does; (b) a call of [n] turns
    attempts [ceil(n/10)] swaps; (c) after [run(a)] with [a] not a multiple
    of 10, the next turn attempts a swap when it opens a new call [run(b)],
    [b >= 1], and attempts none when it continues a single call [run(a+b)];
    (d) when [a] is a multiple of 10, [run(a)] followed by [run(b)] is the
    same computation as [run(a+b)], swap schedule included. *)
Theorem swap_cadence_per_call (fuel : nat) (pt : t) (g : rng_state) :
  1 < num_chains pt ->
  (forall n k pk gk, 0 <= k < n -> run fuel k pt g = Done (pk, gk) ->
     run fuel n pt g =
       ('(p, g') <- iteration fuel k pk gk ;;
        run_loop fuel (Z.to_nat (n - k - 1)) (k + 1) p g') /\
     forall p' g', iteration fuel k pk gk = Done (p', g') ->
       swap_total p' = swap_total pk + (if k mod 10 =? 0 then 1 else 0)) /\
  (forall n p' g', 0 <= n -> run fuel n pt g = Done (p', g') ->
     swap_total p' = swap_total pt + (n + 9) / 10) /\
  (forall a b pa ga, 0 <= a -> 1 <= b -> a mod 10 <> 0 ->
     run fuel a pt g = Done (pa, ga) ->
     run fuel b pa ga =
       ('(p, g') <- iteration fuel 0 pa ga ;;
        run_loop fuel (Z.to_nat (b - 1)) 1 p g') /\
     run fuel (a + b) pt g =
       ('(p, g') <- iteration fuel a pa ga ;;
        run_loop fuel (Z.to_nat (b - 1)) (a + 1) p g') /\
     (forall p1 g1, iteration fuel 0 pa ga = Done (p1, g1) ->
        swap_total p1 = swap_total pa + 1) /\
     (forall p2 g2, iteration fuel a pa ga = Done (p2, g2) ->
        swap_total p2 = swap_total pa)) /\
  (forall a b, 0 <= a -> 0 <= b -> a mod 10 = 0 ->
     run fuel (a + b) pt g = ('(p, g') <- run fuel a pt g ;; run fuel b p g')).
Proof.
  intros HK.
  assert (Hturn : forall k pk gk p' g', 0 <= k ->
            run fuel k pt g = Done (pk, gk) ->
            iteration fuel k pk gk = Done (p', g') ->
            swap_total p' = swap_total pk + (if k mod 10 =? 0 then 1 else 0)).
  { intros k pk gk p' g' Hk Hrun Hit.
    apply run_loop_inv in Hrun; [|lia|exact HK]. destruct Hrun as [Hn _].
    apply iteration_inv in Hit. destruct Hit as (Hst & _). rewrite Hst.
    unfold swap_due. rewrite Z.rem_mod_nonneg by lia.
    replace (1 <? num_chains pk) with true by (symmetry; apply Z.ltb_lt; lia).
    rewrite andb_true_r. reflexivity. }
  split; [|split; [|split]].
  - intros n k pk gk Hk Hrun. split.
    + apply run_turn; assumption.
    + intros p' g'. apply Hturn; [lia | assumption].
  - intros n p' g' Hn Hrun. apply run_loop_inv in Hrun; [|lia|exact HK].
    destruct Hrun as [_ ->]. rewrite Z2Nat.id by lia.
    change ((0 + 9) / 10) with 0. f_equal. rewrite Z.sub_0_r. f_equal.
  - intros a b pa ga Ha Hb Hmod Hrun.
    assert (Hna : num_chains pa = num_chains pt).
    { apply run_loop_inv in Hrun; [tauto | lia | exact HK]. }
    split; [|split; [|split]].
    + replace (b - 1) with (b - 0 - 1) by lia.
      apply run_turn; [lia | reflexivity].
    + replace (b - 1) with (a + b - a - 1) by lia.
      apply run_turn; [lia | assumption].
    + intros p1 g1 Hit. apply iteration_inv in Hit. destruct Hit as (-> & _).
      unfold swap_due. rewrite Hna.
      replace (1 <? num_chains pt) with true by (symmetry; apply Z.ltb_lt; lia).
      reflexivity.
    + intros p2 g2 Hit. rewrite (Hturn a pa ga p2 g2 Ha Hrun Hit).
      destruct (Z.eqb_spec (a mod 10) 0); [contradiction | lia].
  - intros a b Ha Hb Hm. unfold run. rewrite Z2Nat.inj_add by lia.
    rewrite run_loop_app. rewrite Z2Nat.id by lia.
    destruct (run_loop fuel (Z.to_nat a) 0 pt g) as [[pt1 g1]| | |]; simpl;
      try reflexivity.
    apply (run_loop_shift fuel (Z.to_nat b) 0 a); lia.
Qed.

End Cadence.

Lemma stable_const {A : Type} (m : outcome A) : stable (fun _ => m).
Proof. intros f f' a _ H. exact H. Qed.

Lemma stable_bind {A B : Type} (F : nat -> outcome A) (K : nat -> A -> outcome B) :
  stable F -> (forall a, stable (fun f => K f a)) ->
  stable (fun f => bind (F f) (K f)).
Proof.
  intros HF HK f f' b Hle H. inv_bind H.
  rewrite (HF f f' a Hle Hl). simpl. apply (HK a f f' b Hle Hr).
Qed.

(** ** Fuel, sessions and determinism *)

Section Session.
Context {L : Libm} {R : RandomSource}.
Import ParallelTemperingMCMC.

Lemma reflect_unit_stable x : stable (fun f => ProposalDistribution.reflect_unit f x).
Proof.
  intros f. revert x. induction f as [|f IH]; intros x f' a Hle H.
  - destruct f' as [|f']; [exact H|].
    simpl in *. destruct ((x <=? 0)%float || (1 <=? x)%float); [discriminate | exact H].
  - destruct f' as [|f']; [lia|]. simpl in *.
    destruct ((x <=? 0)%float || (1 <=? x)%float); [|exact H].
    apply IH; [lia | exact H].
Qed.

Lemma reflect_positive_stable x :
  stable (fun f => ProposalDistribution.reflect_positive f x).
Proof.
  intros f. revert x. induction f as [|f IH]; intros x f' a Hle H.
  - destruct f' as [|f']; [exact H|].
    simpl in *. destruct (x <=? 0)%float; [discriminate | exact H].
  - destruct f' as [|f']; [lia|]. simpl in *.
    destruct (x <=? 0)%float; [|exact H].
    apply IH; [lia | exact H].
Qed.

Lemma propose_stable pd cur g :
  stable (fun f => ProposalDistribution.propose f pd cur g).
Proof.
  unfold ProposalDistribution.propose.
  apply stable_bind; [apply stable_const|]. intros s0.
  destruct (normal_draw (ProposalDistribution.normal_dist pd) g) as [[z0 nd0] g0].
  apply stable_bind; [apply reflect_unit_stable|]. intros fp.
  apply stable_bind; [apply stable_const|]. intros s1.
  destruct (normal_draw nd0 g0) as [[z1 nd1] g1].
  apply stable_bind; [apply reflect_unit_stable|]. intros cp.
  apply stable_bind; [apply stable_const|]. intros s2.
  destruct (normal_draw nd1 g1) as [[z2 nd2] g2].
  apply stable_bind; [apply stable_const|]. intros s3.
  destruct (normal_draw nd2 g2) as [[z3 nd3] g3].
  apply stable_bind; [apply reflect_positive_stable|]. intros sp.
  apply stable_const.
Qed.

Lemma step_stable d p c g : stable (fun f => MCMCChain.step f d p c g).
Proof.
  unfold MCMCChain.step.
  apply stable_bind; [apply propose_stable|]. intros [[proposed pd] g1].
  apply stable_const.
Qed.

Lemma step_all_stable d p cs : forall g, stable (fun f => step_all f d p cs g).
Proof.
  induction cs as [|c cs IH]; intros g; simpl.
  - apply stable_const.
  - apply stable_bind; [apply step_stable|]. intros [c' g1].
    apply stable_bind; [apply IH|]. intros [rest g2]. apply stable_const.
Qed.

Lemma iteration_stable iter pt g : stable (fun f => iteration f iter pt g).
Proof.
  unfold iteration.
  apply stable_bind; [apply step_all_stable|]. intros [cs g1].
  apply stable_const.
Qed.

Lemma run_loop_stable count :
  forall iter pt g, stable (fun f => run_loop f count iter pt g).
Proof.
  induction count as [|count IH]; intros iter pt g; simpl.
  - apply stable_const.
  - apply stable_bind; [apply iteration_stable|]. intros [pt1 g1]. apply IH.
Qed.

Lemma runs_stable ns : forall pt g, stable (fun f => runs f ns pt g).
Proof.
  induction ns as [|n ns IH]; intros pt g; simpl.
  - apply stable_const.
  - apply stable_bind; [apply run_loop_stable|]. intros [pt1 g1]. apply IH.
Qed.

Lemma session_stable seed K d p ns g0 :
  stable (fun f => session f seed K d p ns g0).
Proof.
  unfold session.
  apply stable_bind; [apply stable_const|]. intros [pt g]. apply runs_stable.
Qed.

(** C9: two executions that call [set_random_seed] with the same seed and then
    build the sampler from the same [K], dataset and priors and make the same
    calls of [run] end in the same sampler state, whatever state the generator
    was in before the seeding and whatever fuel the two are given: the
    cold-chain trace, the acceptance rates, the swap rate and the diagnostics
    they report are equal. *)
Theorem seeded_sessions_agree (fuel1 fuel2 : nat) (seed K : Z) (d : Data)
    (p : Priors) (ns : list Z) (g1 g2 : rng_state)
    (pt1 pt2 : t) (h1 h2 : rng_state) :
  session fuel1 seed K d p ns g1 = Done (pt1, h1) ->
  session fuel2 seed K d p ns g2 = Done (pt2, h2) ->
  pt1 = pt2 /\ h1 = h2 /\ forall warmup, observe warmup pt1 = observe warmup pt2.
Proof.
  intros H1 H2.
  apply (session_stable seed K d p ns g1 fuel1 (Nat.max fuel1 fuel2)) in H1;
    [|apply Nat.le_max_l].
  apply (session_stable seed K d p ns g2 fuel2 (Nat.max fuel1 fuel2)) in H2;
    [|apply Nat.le_max_r].
  unfold session, set_random_seed in H1, H2. rewrite H1 in H2.
  injection H2 as <- <-. auto.
Qed.

End Session.

Lemma to_int32_small z : (- 2 ^ 31 <= z < 2 ^ 31)%Z -> to_int32 z = z.
Proof.
  intros H. unfold to_int32.
  destruct (Z.leb_spec 0 z).
  - rewrite Z.mod_small by lia. destruct (Z.ltb_spec z (2 ^ 31)); lia.
  - assert (E : (z mod 2 ^ 32 = z + 2 ^ 32)%Z).
    { symmetry. apply Z.mod_unique with (-1)%Z; lia. }
    rewrite E. destruct (Z.ltb_spec (z + 2 ^ 32) (2 ^ 31)); lia.
Qed.

Lemma to_size_t_small z : (0 <= z < 2 ^ 32)%Z -> to_size_t z = z.
Proof. intros H. unfold to_size_t. apply Z.mod_small. exact H. Qed.

(* [int n = samples.size() - warmup] is the difference whenever it fits. *)
Lemma post_warmup_count size warmup :
  (- 2 ^ 31 <= size - warmup < 2 ^ 31)%Z ->
  to_int32 (to_size_t (size - to_size_t warmup)) = (size - warmup)%Z.
Proof.
  intros H. transitivity (to_int32 (size - warmup)).
  - unfold to_int32, to_size_t.
    rewrite Zminus_mod_idemp_r, Z.mod_mod by lia. reflexivity.
  - apply to_int32_small. exact H.
Qed.

(** ** Diagnostics *)

Section Diagnostics.
Context {R : RandomSource}.
Local Open Scope float_scope.
Import ParallelTemperingMCMC.

Lemma skipn_cons_nth {A : Type} (l : list A) (i : nat) (a : A) :
  nth_error l i = Some a -> skipn i l = a :: skipn (S i) l.
Proof.
  revert i. induction l as [|b l IH]; intros [|i] H; simpl in *; try discriminate.
  - congruence.
  - apply IH. exact H.
Qed.

Lemma gather_spec samples count :
  forall i cols,
  (i + count <= length samples)%nat ->
  gather count (Z.of_nat i) samples cols
  = Done (append_columns cols (firstn count (skipn i samples))).
Proof.
  induction count as [|count IH]; intros i cols Hlen.
  - simpl. unfold append_columns. simpl. rewrite !app_nil_r.
    destruct cols; reflexivity.
  - destruct (nth_error samples i) as [p|] eqn:E;
      [|apply nth_error_None in E; lia].
    cbn [gather].
    assert (Hat : vec_at samples (Z.of_nat i) = Done p).
    { apply vec_at_Done. rewrite Nat2Z.id. split; [lia | exact E]. }
    rewrite Hat. simpl bind.
    replace (Z.of_nat i + 1)%Z with (Z.of_nat (S i)) by lia.
    rewrite IH by lia. rewrite (skipn_cons_nth _ _ _ E). simpl firstn.
    unfold append_columns, push_back. simpl. rewrite <- !app_assoc. reflexivity.
Qed.

Lemma compute_var_spec v m :
  (1 <= vec_size v < 2 ^ 32)%Z ->
  compute_var v m = sum_sq_dev v m / double_of_Z (vec_size v - 1).
Proof.
  intros H. unfold compute_var, sum_sq_dev. rewrite to_size_t_small by lia.
  reflexivity.
Qed.

(** C7, as the code has it: with at least 100 post-warmup samples
    [compute_rhat] returns, per parameter, the split R-hat of section 4.5 with
    halves of [h = n/2] and [n - h] values, the first half's sample variance
    divided by [h - 1] and the second half's by [(n - h) - 1]. *)
Theorem compute_rhat_split (warmup : Z) (pt : t) (c0 : MCMCChain.t)
    (rest : list MCMCChain.t) :
  chains pt = c0 :: rest ->
  (0 <= warmup)%Z ->
  (vec_size (MCMCChain.samples c0) < 2 ^ 31)%Z ->
  (100 <= vec_size (post_warmup warmup (MCMCChain.samples c0)))%Z ->
  compute_rhat warmup pt =
  Done (per_parameter split_rhat_by_half
          (post_warmup warmup (MCMCChain.samples c0))).
Proof.
  intros Hc Hw Hsize Hn. unfold compute_rhat. rewrite Hc.
  change (vec_at (c0 :: rest) 0) with (Done c0). simpl bind.
  set (samples := MCMCChain.samples c0) in *.
  set (x := post_warmup warmup samples) in *.
  assert (Hx : vec_size x = (vec_size samples - warmup)%Z).
  { unfold x, post_warmup, vec_size in *. rewrite length_skipn in *. lia. }
  cbv zeta. rewrite post_warmup_count by (unfold vec_size in *; lia).
  rewrite <- Hx.
  destruct (Z.ltb_spec (vec_size x) 100); [lia|].
  rewrite Z.quot_div_nonneg by lia.
  set (h := (vec_size x / 2)%Z).
  assert (Hh : (50 <= h /\ 2 * h <= vec_size x /\ vec_size x < 2 * h + 2)%Z).
  { unfold h. Z.div_mod_to_equations. lia. }
  replace (warmup + h - warmup)%Z with h by lia.
  rewrite to_size_t_small by (unfold vec_size in *; lia).
  replace warmup with (Z.of_nat (Z.to_nat warmup)) at 1 by lia.
  rewrite gather_spec by (unfold vec_size in *; lia). simpl bind.
  replace (warmup + h)%Z with (Z.of_nat (Z.to_nat warmup + Z.to_nat h)) at 2 by lia.
  rewrite gather_spec by (unfold vec_size in *; lia). simpl bind.
  fold (post_warmup warmup samples). fold x.
  assert (Hsecond :
    firstn (Z.to_nat (vec_size samples - (warmup + h)))
           (skipn (Z.to_nat warmup + Z.to_nat h) samples) = skipn (Z.to_nat h) x).
  { unfold x, post_warmup. rewrite skipn_skipn.
    rewrite (Nat.add_comm (Z.to_nat h)). apply firstn_all2.
    rewrite length_skipn. unfold vec_size in *. lia. }
  rewrite Hsecond. unfold append_columns, no_columns. simpl.
  assert (H1 : forall A (f : Params -> A),
            vec_size (map f (firstn (Z.to_nat h) x)) = h).
  { intros. unfold vec_size in *. rewrite length_map, length_firstn. lia. }
  assert (H2 : forall A (f : Params -> A),
            vec_size (map f (skipn (Z.to_nat h) x)) = (vec_size x - h)%Z).
  { intros. unfold vec_size in *. rewrite length_map, length_skipn. lia. }
  unfold per_parameter, split_rhat_by_half, split_rhat, compute_rhat_param, mean.
  rewrite !compute_var_spec
    by (rewrite ?H1, ?H2; unfold vec_size in *; lia).
  replace (vec_size (map floor x)) with (vec_size x)
    by (unfold vec_size; rewrite length_map; reflexivity).
  replace (vec_size (map ceiling x)) with (vec_size x)
    by (unfold vec_size; rewrite length_map; reflexivity).
  replace (vec_size (map ec50 x)) with (vec_size x)
    by (unfold vec_size; rewrite length_map; reflexivity).
  replace (vec_size (map slope x)) with (vec_size x)
    by (unfold vec_size; rewrite length_map; reflexivity).
  fold h. rewrite !firstn_map, !skipn_map, !H1, !H2. reflexivity.
Qed.

(** C8: when fewer than 100 samples follow the warm-up (also when the warm-up
    reaches or passes the end of the trace, or is negative), [compute_rhat]
    returns [1, 1, 1, 1] and [compute_ess] returns [0, 0, 0, 0]; neither call
    fails, and neither result depends on what the trace holds. *)
Theorem diagnostics_sentinel (warmup : Z) (pt : t) (c0 : MCMCChain.t)
    (rest : list MCMCChain.t) :
  chains pt = c0 :: rest ->
  (- 2 ^ 31 <= warmup < 2 ^ 31)%Z ->
  (vec_size (MCMCChain.samples c0) - warmup < 100)%Z ->
  compute_rhat warmup pt = Done [1; 1; 1; 1] /\
  compute_ess warmup pt = Done [0; 0; 0; 0].
Proof.
  intros Hc Hw Hn. unfold compute_rhat, compute_ess. rewrite Hc.
  change (vec_at (c0 :: rest) 0) with (Done c0). simpl bind.
  rewrite post_warmup_count by (unfold vec_size in *; lia).
  destruct (Z.ltb_spec (vec_size (MCMCChain.samples c0) - warmup) 100); [|lia].
  split; reflexivity.
Qed.

End Diagnostics.

(** ** The tempered log-posterior, the invariant, construction, and the
       boundary cases *)

Section Contract.
Context {L : Libm} {R : RandomSource}.
Local Open Scope float_scope.
Import ParallelTemperingMCMC.

(* The code's Bernoulli term is the stated one, except at a NaN probability,
   where the code's guards let the logarithm of a NaN through and the stated
   term is minus infinity: neither is finite. *)
Lemma log_bernoulli_pmf_stated y q :
  log_bernoulli_pmf y q = bernoulli_log_pmf y q \/
  (is_finite (log_bernoulli_pmf y q) = false /\
   is_finite (bernoulli_log_pmf y q) = false).
Proof.
  unfold log_bernoulli_pmf, bernoulli_log_pmf.
  destruct (q <=? 0) eqn:G0; cbn [orb].
  - left. rewrite (leb_ltb_false _ _ G0). reflexivity.
  - destruct (1 <=? q) eqn:G1.
    + left. rewrite (leb_ltb_false _ _ G1), andb_false_r. reflexivity.
    + destruct (is_nan q) eqn:Hn.
      * right. apply is_nan_eq in Hn. subst q.
        change (0 <? nan) with false. cbn [andb].
        rewrite sub_nan_r, log_nan, not_finite_neg_infinity.
        destruct (y =? 1)%Z; split; auto using not_finite_nan.
      * left. rewrite (leb_false_ltb q 0 Hn eq_refl G0).
        rewrite (leb_false_ltb 1 q eq_refl Hn G1). reflexivity.
Qed.

(* The sum does not tell the two apart: a term that is not finite ends it. *)
Lemma sum_or_neg_infinity_stated p (l : list (float * Z)) :
  forall acc,
  sum_or_neg_infinity acc
    (map (fun ty => log_bernoulli_pmf (snd ty) (prob_infection p (fst ty))) l)
  = sum_or_neg_infinity acc
    (map (fun ty => bernoulli_log_pmf (snd ty) (infection_probability p (fst ty))) l).
Proof.
  induction l as [|[t y] l IH]; intros acc; [reflexivity|].
  cbn [map fst snd]. rewrite !sum_or_neg_infinity_cons.
  change (infection_probability p t) with (prob_infection p t).
  destruct (log_bernoulli_pmf_stated y (prob_infection p t)) as [E | [Hc Hs]].
  - rewrite <- E.
    destruct (is_finite (acc + log_bernoulli_pmf y (prob_infection p t)));
      [apply IH | reflexivity].
  - assert (Fc : is_finite (acc + log_bernoulli_pmf y (prob_infection p t)) = false).
    { destruct (is_finite (acc + log_bernoulli_pmf y (prob_infection p t))) eqn:F;
        [|reflexivity].
      apply add_finite_inv in F. destruct F as [_ F]. congruence. }
    assert (Fs : is_finite (acc + bernoulli_log_pmf y (prob_infection p t)) = false).
    { destruct (is_finite (acc + bernoulli_log_pmf y (prob_infection p t))) eqn:F;
        [|reflexivity].
      apply add_finite_inv in F. destruct F as [_ F]. congruence. }
    rewrite Fc, Fs. reflexivity.
Qed.

Lemma log_likelihood_stated_spec p d :
  sum_or_neg_infinity 0 (bernoulli_terms p d) = log_likelihood_stated p d.
Proof.
  unfold bernoulli_terms, log_likelihood_stated, stated_terms.
  apply sum_or_neg_infinity_stated.
Qed.

(** C5, as the code has it: on a dataset whose [N] observations are there,
    [log_likelihood] is the left-to-right sum of the observations' Bernoulli
    log-pmfs ([log p] if [y = 1], else [log (1 - p)]; minus infinity if [p]
    is not in (0, 1)), or minus infinity once a partial sum is not finite;
    and [log_posterior_tempered] is minus infinity when the log-prior or the
    log-likelihood is not finite, and [log_prior + log_likelihood / T] when
    both are.  The quotient [log_likelihood / T] is never tested: when it is
    finite too the result is that finite sum, but at a NaN temperature, with
    a finite log-prior and a finite log-likelihood, the quotient is a NaN and
    so is the result, not minus infinity. *)
Theorem log_posterior_tempered_spec (p : Params) (d : Data) (priors : Priors)
    (T : float) :
  data_in_bounds d ->
  let lp := log_prior p priors in
  let ll := log_likelihood_stated p d in
  log_likelihood p d = Done ll /\
  log_posterior_tempered p d priors T =
    Done (if is_finite lp && is_finite ll then lp + ll / T else neg_infinity) /\
  (is_finite lp = true -> is_finite (ll / T) = true ->
   log_posterior_tempered p d priors T = Done (lp + ll / T)) /\
  (is_finite lp = true -> is_finite ll = true ->
   is_finite (ll / nan) = false /\
   log_posterior_tempered p d priors nan = Done nan).
Proof.
  intros Hd lp ll.
  assert (Hv : forall T', log_posterior_tempered p d priors T' =
                 Done (if is_finite lp && is_finite ll then lp + ll / T'
                       else neg_infinity)).
  { intros T'. rewrite (log_posterior_tempered_value _ _ _ _ Hd).
    unfold tempered. rewrite log_likelihood_stated_spec. reflexivity. }
  split; [|split; [|split]].
  - rewrite (log_likelihood_spec p d Hd), log_likelihood_stated_spec. reflexivity.
  - apply Hv.
  - intros Hlp Hq. rewrite Hv, Hlp, (div_finite_inv _ _ Hq). reflexivity.
  - intros Hlp Hll. rewrite div_nan_r. split; [exact not_finite_nan|].
    rewrite Hv, Hlp, Hll, div_nan_r, add_nan_r. reflexivity.
Qed.

Lemma runs_preserves_domain fuel ns :
  forall pt g pt' g',
  ensemble_ok pt -> runs fuel ns pt g = Done (pt', g') -> ensemble_ok pt'.
Proof.
  induction ns as [|n ns IH]; intros pt g pt' g' Hok H; simpl in H.
  - injection H as <- _. exact Hok.
  - inv_bind H. destruct a as [pt1 g1].
    apply (IH pt1 g1 pt' g'); [|exact Hr].
    eapply run_loop_preserves_domain; eassumption.
Qed.

(** C3: every chain's current parameter vector has its floor and ceiling
    strictly between 0 and 1, its slope strictly positive and its ec50 finite
    (a) when the constructor returns, (b) after every step, (c) after every
    swap attempt, hence (d) after every call of [run] and (e) at the end of
    every session of the host; (f) a proposal whose tempered log-posterior
    is minus infinity is rejected: the step keeps the current vector, its
    cached log-posterior and the acceptance count; and (g) the tempered
    log-posterior of a vector outside the domain is minus infinity. *)
Theorem domain_invariant :
  (forall K d p g pt g',
     construct K d p g = Done (pt, g') -> ensemble_ok pt) /\
  (forall fuel d p c g c' g',
     theta_ok (MCMCChain.current c) ->
     MCMCChain.step fuel d p c g = Done (c', g') ->
     theta_ok (MCMCChain.current c')) /\
  (forall pt g pt' g',
     ensemble_ok pt -> attempt_swap pt g = Done (pt', g') -> ensemble_ok pt') /\
  (forall fuel n pt g pt' g',
     ensemble_ok pt -> run fuel n pt g = Done (pt', g') -> ensemble_ok pt') /\
  (forall fuel seed K d p ns g0 pt g,
     session fuel seed K d p ns g0 = Done (pt, g) -> ensemble_ok pt) /\
  (forall fuel d p c g proposed pd g1 c' g',
     ProposalDistribution.propose fuel (MCMCChain.proposal c)
       (MCMCChain.current c) g = Done (proposed, pd, g1) ->
     log_posterior_tempered proposed d p (MCMCChain.temperature c)
       = Done neg_infinity ->
     MCMCChain.step fuel d p c g = Done (c', g') ->
     MCMCChain.current c' = MCMCChain.current c /\
     MCMCChain.current_log_posterior c' = MCMCChain.current_log_posterior c /\
     MCMCChain.accepted c' = MCMCChain.accepted c) /\
  (forall p d priors T v,
     log_posterior_tempered p d priors T = Done v -> ~ theta_ok p ->
     v = neg_infinity).
Proof.
  split; [|split; [|split; [|split; [|split; [|split]]]]].
  - intros K d p g pt g' H. apply construct_inv in H. tauto.
  - intros fuel d p c g c' g'. apply step_preserves_domain.
  - intros pt g pt' g' Hok H. apply attempt_swap_inv in H. tauto.
  - intros fuel n pt g pt' g' Hok H. unfold run in H.
    eapply run_loop_preserves_domain; eassumption.
  - intros fuel seed K d p ns g0 pt g H. unfold session in H.
    inv_bind H. destruct a as [pt0 g1]. apply construct_inv in Hl.
    eapply runs_preserves_domain; [|eassumption]. tauto.
  - intros. eapply step_rejects_neg_infinity; eassumption.
  - intros p d priors T v H Hout.
    apply log_posterior_tempered_inv in H. tauto.
Qed.


(* A reflection loop that exits leaves a candidate strictly inside the domain,
   unless the candidate is a NaN. *)
Lemma reflect_unit_exit fuel :
  forall x r, ProposalDistribution.reflect_unit fuel x = Done r ->
  is_nan r = false -> (0 <? r) = true /\ (r <? 1) = true.
Proof.
  induction fuel as [|fuel IH]; intros x r H Hnan; simpl in H;
    destruct ((x <=? 0) || (1 <=? x)) eqn:G; try discriminate.
  - injection H as <-. apply orb_false_iff in G.
    split; apply leb_false_ltb; tauto.
  - eapply IH; eassumption.
  - injection H as <-. apply orb_false_iff in G.
    split; apply leb_false_ltb; tauto.
Qed.

Lemma reflect_positive_exit fuel :
  forall x r, ProposalDistribution.reflect_positive fuel x = Done r ->
  is_nan r = false -> (0 <? r) = true.
Proof.
  induction fuel as [|fuel IH]; intros x r H Hnan; simpl in H;
    destruct (x <=? 0) eqn:G; try discriminate.
  - injection H as <-. apply leb_false_ltb; auto.
  - eapply IH; eassumption.
  - injection H as <-. apply leb_false_ltb; auto.
Qed.

Lemma reflect_unit_stuck_at_zero fuel :
  forall x, x = 0 \/ x = -0 -> ProposalDistribution.reflect_unit fuel x = Diverges.
Proof.
  induction fuel as [|fuel IH]; intros x [-> | ->]; try reflexivity.
  - apply (IH (-0)). right. reflexivity.
  - apply (IH 0). left. reflexivity.
Qed.

Lemma reflect_unit_stuck_at_one fuel :
  ProposalDistribution.reflect_unit fuel 1 = Diverges.
Proof. induction fuel as [|fuel IH]; [reflexivity | exact IH]. Qed.

Lemma reflect_positive_stuck_at_zero fuel :
  forall x, x = 0 \/ x = -0 ->
  ProposalDistribution.reflect_positive fuel x = Diverges.
Proof.
  induction fuel as [|fuel IH]; intros x [-> | ->]; try reflexivity.
  - apply (IH (-0)). right. reflexivity.
  - apply (IH 0). left. reflexivity.
Qed.

(** C2, where the code departs from it: a candidate that lands exactly on a
    boundary keeps the reflection loop running whatever the fuel.  The
    unit-interval loop never leaves 0, 1 or 2 (an even integer), the positive
    loop never leaves 0, and [propose] diverges from floor 0.5 with step size
    0.1 when the Gaussian draw is -5. *)
Theorem propose_diverges_on_boundary (fuel : nat) :
  ProposalDistribution.reflect_unit fuel 0 = Diverges /\
  ProposalDistribution.reflect_unit fuel 1 = Diverges /\
  ProposalDistribution.reflect_unit fuel 2 = Diverges /\
  ProposalDistribution.reflect_positive fuel 0 = Diverges /\
  forall pd current g,
    ProposalDistribution.step_sizes pd = repeat 0.1 4 ->
    floor current = 0.5 ->
    fst (fst (normal_draw (ProposalDistribution.normal_dist pd) g)) = -5 ->
    ProposalDistribution.propose fuel pd current g = Diverges.
Proof.
  repeat split.
  - apply reflect_unit_stuck_at_zero. left. reflexivity.
  - apply reflect_unit_stuck_at_one.
  - destruct fuel as [|fuel]; [reflexivity|].
    apply (reflect_unit_stuck_at_zero fuel 0). left. reflexivity.
  - apply reflect_positive_stuck_at_zero. left. reflexivity.
  - intros pd current g Hs Hf Hz. unfold ProposalDistribution.propose.
    rewrite Hs. simpl bind.
    destruct (normal_draw (ProposalDistribution.normal_dist pd) g) as [[z nd] g1].
    simpl in Hz. subst z. rewrite Hf.
    change (0.5 + 0.1 * -5) with 0.
    rewrite (reflect_unit_stuck_at_zero fuel 0) by (left; reflexivity).
    reflexivity.
Qed.

Lemma ladder_entry_single : ladder_entry 1 0 = nan.
Proof.
  unfold ladder_entry.
  change (double_of_Z (Z.of_nat 0) / double_of_Z (1 - 1)) with nan.
  apply pow_nan. reflexivity.
Qed.

(* At temperature NaN the tempered log-posterior is minus infinity or NaN. *)
Lemma log_posterior_tempered_at_nan p d priors v :
  log_posterior_tempered p d priors nan = Done v -> v = neg_infinity \/ v = nan.
Proof.
  unfold log_posterior_tempered.
  destruct (is_finite (log_prior p priors)); simpl; [|intros H; left; congruence].
  intros H. inv_bind H. destruct (is_finite a); simpl in Hr.
  - right. rewrite div_nan_r, add_nan_r in Hr. congruence.
  - left. congruence.
Qed.

(** C4, where the code departs from it: with a single chain the exponent of
    the ladder is [0/0], a NaN, and so is the temperature of the only chain,
    where the claim requires [T_0 = 1]; and a chain at temperature NaN rejects
    every proposal. *)
Theorem single_chain_ladder_is_nan (d : Data) (p : Priors) (g : rng_state)
    (pt : t) (g' : rng_state) :
  construct 1 d p g = Done (pt, g') ->
  temperatures pt = [nan] /\
  map MCMCChain.temperature (chains pt) = [nan] /\
  forall fuel c h c' h',
    MCMCChain.temperature c = nan ->
    MCMCChain.step fuel d p c h = Done (c', h') ->
    MCMCChain.current c' = MCMCChain.current c /\
    MCMCChain.accepted c' = MCMCChain.accepted c.
Proof.
  unfold construct. change (1 <? 0)%Z with false. cbv iota.
  rewrite ladder_loop_from_zero. simpl bind.
  change (geometric_ladder 1) with [ladder_entry 1 0].
  rewrite ladder_entry_single.
  change (Z.to_nat 1) with 1%nat. cbn [init_loop].
  destruct (uniform_real 0.01 0.5 g) as [f g1].
  destruct (uniform_real 0.1 0.9 g1) as [c g2].
  destruct (uniform_real (-2.0) 2.0 g2) as [e g3].
  destruct (uniform_real 0.1 3.0 g3) as [s g4].
  change (vec_at [nan] 0) with (Done nan). simpl bind.
  intros H. inv_bind H. destruct a as [cs g5].
  injection Hr as <- _. simpl. split; [reflexivity|]. split.
  - inv_bind Hl. rename a into chain. injection Hlr as <- _.
    unfold MCMCChain.new in Hll. inv_bind Hll. injection Hllr as <-. reflexivity.
  - intros fuel c0 h c' h' HT Hs. apply step_inv in Hs.
    destruct Hs as (proposed & pd & h1 & plp & _ & Hlp & Hs).
    cbv zeta in Hs. destruct Hs as (_ & Hc & _ & Ha & _).
    rewrite HT in Hlp. apply log_posterior_tempered_at_nan in Hlp.
    assert (Hrej : (log (fst (uniform_real 0 1 h1))
                    <? plp - MCMCChain.current_log_posterior c0) = false).
    { destruct Hlp as [-> | ->].
      - apply ltb_sub_neg_infinity.
      - rewrite sub_nan_l. apply ltb_nan_r. }
    rewrite Hrej in Hc, Ha. auto.
Qed.

End Contract.

(** ** A bench to run the model on concrete inputs *)

Module Bench.
Local Open Scope float_scope.
Import ParallelTemperingMCMC.

(* A first-order stand-in for <cmath>: enough to run the model, and it
   propagates NaN as the laws of [Libm] ask. *)
Lemma linear_log_nan : nan - 1 = nan.
Proof. reflexivity. Qed.

Lemma linear_pow_nan (x : float) : (x =? 1) = false -> 1 + nan * (x - 1) = nan.
Proof. intros _. rewrite mul_nan_l. apply add_nan_r. Qed.

Definition linear_libm : Libm :=
  Build_Libm (fun x => 1 + x) (fun x => x - 1) (fun x => 1 - x)
             (fun x y => 1 + y * (x - 1)) linear_log_nan linear_pow_nan.

(* A generator that replays a script of variates; a uniform draw outside the
   requested range is replaced by the lower bound. *)
Record script : Type := mkScript { reals : list float; ints : list Z }.

Definition next_real (g : script) (default : float) : float * script :=
  match reals g with
  | [] => (default, g)
  | x :: r => (x, mkScript r (ints g))
  end.

Definition scripted_normal (nd : unit) (g : script) : float * unit * script :=
  let '(z, g) := next_real g 0 in (z, nd, g).

Definition scripted_uniform_real (a b : float) (g : script) : float * script :=
  let '(v, g) := next_real g a in
  (if (a <=? v) && (v <=? b) then v else a, g).

Definition scripted_uniform_int (lo hi : Z) (g : script) : Z * script :=
  match ints g with
  | [] => (lo, g)
  | v :: r => (if ((lo <=? v) && (v <=? hi))%Z then v else lo, mkScript (reals g) r)
  end.

Definition scripted_seed (seed : Z) : script :=
  mkScript [double_of_Z (seed mod 5) / 10; 0.25; 0.5; 0.125; 0.3; 0.7; -1; 2;
            0.5; -1.5; 0.25; 1; 0.75]
           [(seed mod 2)%Z].

Lemma scripted_uniform_real_range a b g :
  (a <=? b) = true ->
  (a <=? fst (scripted_uniform_real a b g)) = true /\
  (fst (scripted_uniform_real a b g) <=? b) = true.
Proof.
  intros Hab. unfold scripted_uniform_real.
  destruct (next_real g a) as [v g']. simpl.
  destruct ((a <=? v) && (v <=? b)) eqn:E.
  - apply andb_true_iff in E. exact E.
  - split; [eapply leb_refl_of_leb; eassumption | assumption].
Qed.

Lemma scripted_uniform_int_range lo hi g :
  (lo <= hi)%Z -> (lo <= fst (scripted_uniform_int lo hi g) <= hi)%Z.
Proof.
  intros H. unfold scripted_uniform_int. destruct (ints g) as [|v r]; simpl.
  - lia.
  - destruct ((lo <=? v) && (v <=? hi))%Z eqn:E; lia.
Qed.

Definition scripted : RandomSource :=
  Build_RandomSource script scripted_seed unit tt scripted_normal
    scripted_uniform_real scripted_uniform_int
    scripted_uniform_real_range scripted_uniform_int_range.

#[local] Existing Instance linear_libm.
#[local] Existing Instance scripted.

Definition from_done {A : Type} (o : outcome A) (default : A) : A :=
  match o with
  | Done a => a
  | _ => default
  end.

(* The two-point dataset of the first end-to-end scenario. *)
Definition two_points : Data := Data_of [-5; 5] [1; 0]%Z.

(* The generator state that replays the given variates. *)
Definition replay (rs : list float) (zs : list Z) : @rng_state scripted :=
  mkScript rs zs.

Definition bench_script : @rng_state scripted :=
  replay [0.3; 0.4; 0.5; 1.5; 0.2; 0.6; -1; 2; 0.5; 0.5; 0.5; 0.5; 0.9; 0.5;
          0.5; 0.5; 0.5; 0.5; 0.5; 0.5; 0.5; 0.5]
         [0; 1; 0]%Z.

Definition no_ensemble : t := mk [] [] empty_Data default_Priors 0 0 0.

(* Two chains on the two-point dataset, as the constructor leaves them. *)
Definition bench_start : t * @rng_state scripted :=
  from_done (construct 2 two_points default_Priors bench_script)
            (no_ensemble, bench_script).


(* A cold chain that has made 101 steps. *)
Definition bench_trace : list Params :=
  map (fun k => mkParams (double_of_Z (Z.of_nat (k mod 7) + 1) / 16)
                         (double_of_Z (Z.of_nat (k mod 5) + 1) / 8)
                         (double_of_Z (Z.of_nat (k mod 3)) - 1)
                         (double_of_Z (Z.of_nat (k mod 4) + 1) / 2))
      (seq 0 101).

Definition bench_chain : MCMCChain.t :=
  MCMCChain.mk (mkParams 0.5 0.5 0 1) 0 1 ProposalDistribution.new 40 101
               bench_trace.

Definition bench_ensemble : t :=
  mk [bench_chain] [1] two_points default_Priors 1 0 0.

(** ** Concrete runs *)

(* Two float literals that differ. *)
Ltac floats_differ H :=
  apply (f_equal Prim2SF) in H; vm_compute in H; discriminate H.

Lemma Done_inj {A : Type} (a b : A) : Done a = Done b -> a = b.
Proof. intros H. exact (f_equal (fun o => from_done o a) H). Qed.

(* The state the first call [run(5)] leaves. *)
Definition bench_first_call : t * @rng_state scripted :=
  from_done (run 5 5 (fst bench_start) (snd bench_start)) bench_start.

(* A single chain, as the constructor leaves it. *)
Definition bench_single : t * @rng_state scripted :=
  from_done (construct 1 two_points default_Priors bench_script)
            (no_ensemble, bench_script).

(* Two sessions with the same seed, started from different generator states
   and given different fuel. *)
Definition bench_session : t * @rng_state scripted :=
  from_done (session 5 42 2 two_points default_Priors [3; 4]%Z bench_script)
            (no_ensemble, bench_script).

Definition bench_session' : t * @rng_state scripted :=
  from_done (session 9 42 2 two_points default_Priors [3; 4]%Z (replay [] []))
            (no_ensemble, bench_script).

(* Priors that break every constraint of section 3. *)
Definition bad_Priors : Priors := mkPriors 0 (-1) 0 (-2) 0 0 1 (-1).



(** C2 on the bench: floor 0.5, step size 0.1 and the draw -5 put the
    candidate on 0, and a thousand units of fuel do not end the loop. *)
Lemma propose_diverges_on_boundary_witness :
  ProposalDistribution.propose 1000 ProposalDistribution.new
    (mkParams 0.5 0.5 0 1) (replay [-5] []) = Diverges.
Proof.
  apply (propose_diverges_on_boundary 1000); reflexivity.
Defined.

(** C3 on the bench: the chains a session of two calls ends with lie in the
    domain. *)
Lemma domain_invariant_witness :
  session 5 42 2 two_points default_Priors [3; 4]%Z bench_script
    = Done (fst bench_session, snd bench_session) /\
  ensemble_ok (fst bench_session) /\
  all_in_domain (fst bench_session) = true /\
  length (chains (fst bench_session)) = 2%nat.
Proof.
  assert (E : session 5 42 2 two_points default_Priors [3; 4]%Z bench_script
              = Done (fst bench_session, snd bench_session))
    by (vm_compute; reflexivity).
  split; [exact E|].
  destruct (@domain_invariant linear_libm scripted) as (_ & _ & _ & _ & H & _ & _).
  split; [exact (H _ _ _ _ _ _ _ _ _ E) | split; vm_compute; reflexivity].
Defined.

(** C4 on the bench: the ladder of a single chain. *)
Lemma single_chain_ladder_is_nan_witness :
  construct 1 two_points default_Priors bench_script
    = Done (fst bench_single, snd bench_single) /\
  temperatures (fst bench_single) = [nan] /\
  map MCMCChain.temperature (chains (fst bench_single)) = [nan].
Proof.
  assert (E : construct 1 two_points default_Priors bench_script
              = Done (fst bench_single, snd bench_single))
    by (vm_compute; reflexivity).
  split; [exact E|].
  destruct (single_chain_ladder_is_nan _ _ _ _ _ E) as (Ht & Hc & _). auto.
Defined.

(** C5 fails as stated: at a NaN temperature, with a finite log-prior and a
    finite log-likelihood, the addend [log_likelihood / T] is not finite, and
    the tempered log-posterior is a NaN, not minus infinity. *)
Lemma log_posterior_tempered_nan_at_nan_temperature :
  is_finite (log_prior (mkParams 0.3 0.4 0.5 1.5) default_Priors) = true /\
  is_finite (log_likelihood_stated (mkParams 0.3 0.4 0.5 1.5) two_points) = true /\
  is_finite (log_likelihood_stated (mkParams 0.3 0.4 0.5 1.5) two_points / nan)
    = false /\
  log_posterior_tempered (mkParams 0.3 0.4 0.5 1.5) two_points default_Priors nan
    = Done nan /\
  log_posterior_tempered (mkParams 0.3 0.4 0.5 1.5) two_points default_Priors nan
    <> Done neg_infinity.
Proof.
  split; [vm_compute; reflexivity|]. split; [vm_compute; reflexivity|].
  split; [vm_compute; reflexivity|]. split; [vm_compute; reflexivity|].
  vm_compute. intros H. apply Done_inj in H. floats_differ H.
Qed.

(** C5, as the code has it, on the bench: the two-point dataset at
    temperature 2, and at a NaN temperature. *)
Lemma log_posterior_tempered_spec_witness :
  data_in_bounds two_points /\
  log_likelihood (mkParams 0.3 0.4 0.5 1.5) two_points
  = Done (log_likelihood_stated (mkParams 0.3 0.4 0.5 1.5) two_points) /\
  log_posterior_tempered (mkParams 0.3 0.4 0.5 1.5) two_points default_Priors 2
  = Done (log_prior (mkParams 0.3 0.4 0.5 1.5) default_Priors
          + log_likelihood_stated (mkParams 0.3 0.4 0.5 1.5) two_points / 2) /\
  log_posterior_tempered (mkParams 0.3 0.4 0.5 1.5) two_points default_Priors nan
  = Done nan.
Proof.
  assert (Hd : data_in_bounds two_points) by (split; vm_compute; discriminate).
  destruct (log_posterior_tempered_spec (mkParams 0.3 0.4 0.5 1.5) two_points
              default_Priors 2 Hd) as (Hl & _ & Hq & Hn).
  split; [exact Hd|]. split; [exact Hl|]. split.
  - apply Hq; vm_compute; reflexivity.
  - apply Hn; vm_compute; reflexivity.
Defined.


(** C7 fails as stated: on a trace of 101 samples the second half has 51
    values and its variance is divided by 50, not by 49. *)
Lemma compute_rhat_not_as_stated :
  compute_rhat 0 bench_ensemble
  <> Done (per_parameter split_rhat_stated (post_warmup 0 bench_trace)).
Proof.
  vm_compute. intros H. apply Done_inj in H.
  apply (f_equal (fun l => nth 0 l 0)) in H. cbv beta iota delta [nth] in H.
  floats_differ H.
Qed.

(** C7, as the code has it, on the bench: the trace of 101 samples. *)
Lemma compute_rhat_split_witness :
  (100 <= vec_size (post_warmup 0 bench_trace))%Z /\
  compute_rhat 0 bench_ensemble
  = Done (per_parameter split_rhat_by_half (post_warmup 0 bench_trace)).
Proof.
  assert (Hn : (100 <= vec_size (post_warmup 0 bench_trace))%Z)
    by (vm_compute; discriminate).
  split; [exact Hn|].
  apply (compute_rhat_split 0 bench_ensemble bench_chain []);
    [reflexivity | lia | vm_compute; reflexivity | exact Hn].
Defined.

(** C8 on the bench: 99 samples after a warm-up of 2, and a warm-up past the
    end of the trace. *)
Lemma diagnostics_sentinel_witness :
  (vec_size bench_trace - 2 < 100)%Z /\
  compute_rhat 2 bench_ensemble = Done [1; 1; 1; 1] /\
  compute_ess 2 bench_ensemble = Done [0; 0; 0; 0] /\
  compute_rhat 5000 bench_ensemble = Done [1; 1; 1; 1] /\
  compute_ess 5000 bench_ensemble = Done [0; 0; 0; 0].
Proof.
  assert (H2 : (vec_size bench_trace - 2 < 100)%Z) by (vm_compute; reflexivity).
  split; [exact H2|].
  pose proof (diagnostics_sentinel 2 bench_ensemble bench_chain [] eq_refl
                ltac:(lia) H2) as [Hr He].
  pose proof (diagnostics_sentinel 5000 bench_ensemble bench_chain [] eq_refl
                ltac:(lia) ltac:(vm_compute; reflexivity)) as [Hr' He'].
  auto.
Defined.

(** C9 on the bench: the same seed after two different generator states,
    with different fuel. *)
Lemma seeded_sessions_agree_witness :
  session 5 42 2 two_points default_Priors [3; 4]%Z bench_script
    = Done (fst bench_session, snd bench_session) /\
  session 9 42 2 two_points default_Priors [3; 4]%Z (replay [] [])
    = Done (fst bench_session', snd bench_session') /\
  fst bench_session = fst bench_session' /\
  forall warmup,
    observe warmup (fst bench_session) = observe warmup (fst bench_session').
Proof.
  assert (E1 : session 5 42 2 two_points default_Priors [3; 4]%Z bench_script
               = Done (fst bench_session, snd bench_session))
    by (vm_compute; reflexivity).
  assert (E2 : session 9 42 2 two_points default_Priors [3; 4]%Z (replay [] [])
               = Done (fst bench_session', snd bench_session'))
    by (vm_compute; reflexivity).
  destruct (seeded_sessions_agree 5 9 42 2 two_points default_Priors [3; 4]%Z
              bench_script (replay [] []) _ _ _ _ E1 E2) as (H1 & _ & H3).
  auto.
Defined.

(* The turn that follows [run(5)]: as the first turn of a new call, and as the
   sixth turn of a single call. *)
Definition bench_new_call : t * @rng_state scripted :=
  from_done (iteration 5 0 (fst bench_first_call) (snd bench_first_call))
            bench_start.

Definition bench_same_call : t * @rng_state scripted :=
  from_done (iteration 5 5 (fst bench_first_call) (snd bench_first_call))
            bench_start.

(* The state the call [run(10)] leaves. *)
Definition bench_ten : t * @rng_state scripted :=
  from_done (run 5 10 (fst bench_start) (snd bench_start)) bench_start.

(* The state the call [run(15)] leaves. *)
Definition bench_fifteen : t * @rng_state scripted :=
  from_done (run 5 15 (fst bench_start) (snd bench_start)) bench_start.

(** C10 fails as stated: [run(10)] followed by [run(5)] does not attempt a
    different swap schedule than [run(15)].  The turn after the first ten is
    the same computation whether it opens the call [run(5)] (index 0) or
    continues the call [run(15)] (index 10), it attempts a swap in both, and
    the two ways end in the same ensemble and the same generator state. *)
Lemma run_ten_then_five_is_run_fifteen :
  run 5 10 (fst bench_start) (snd bench_start)
    = Done (fst bench_ten, snd bench_ten) /\
  run 5 5 (fst bench_ten) (snd bench_ten)
    = Done (fst bench_fifteen, snd bench_fifteen) /\
  run 5 15 (fst bench_start) (snd bench_start)
    = Done (fst bench_fifteen, snd bench_fifteen) /\
  iteration 5 0 (fst bench_ten) (snd bench_ten)
    = iteration 5 10 (fst bench_ten) (snd bench_ten) /\
  (exists p' g',
     iteration 5 10 (fst bench_ten) (snd bench_ten) = Done (p', g') /\
     swap_total p' = (swap_total (fst bench_ten) + 1)%Z) /\
  swap_total (fst bench_fifteen) = 2%Z.
Proof.
  split; [vm_compute; reflexivity|]. split; [vm_compute; reflexivity|].
  split; [vm_compute; reflexivity|]. split; [vm_compute; reflexivity|].
  split; [|vm_compute; reflexivity].
  set (turn := from_done (iteration 5 10 (fst bench_ten) (snd bench_ten))
                 bench_start).
  exists (fst turn), (snd turn). split; vm_compute; reflexivity.
Qed.

(** C10, as the code has it, on the bench: [run(5); run(5)] attempts two
    swaps, [run(10)] one; the turn after the first five attempts a swap when
    it opens a new call and none when it continues the call; and [run(15)] is
    [run(10); run(5)]. *)
Lemma swap_cadence_per_call_witness :
  exists p2 h2 q h,
    run 5 5 (fst bench_start) (snd bench_start)
      = Done (fst bench_first_call, snd bench_first_call) /\
    run 5 5 (fst bench_first_call) (snd bench_first_call) = Done (p2, h2) /\
    run 5 10 (fst bench_start) (snd bench_start) = Done (q, h) /\
    swap_total p2 = 2%Z /\ swap_total q = 1%Z /\
    iteration 5 0 (fst bench_first_call) (snd bench_first_call)
      = Done (fst bench_new_call, snd bench_new_call) /\
    iteration 5 5 (fst bench_first_call) (snd bench_first_call)
      = Done (fst bench_same_call, snd bench_same_call) /\
    swap_total (fst bench_new_call) = (swap_total (fst bench_first_call) + 1)%Z /\
    swap_total (fst bench_same_call) = swap_total (fst bench_first_call) /\
    run 5 (10 + 5) (fst bench_start) (snd bench_start)
      = ('(p, g') <- run 5 10 (fst bench_start) (snd bench_start) ;;
         run 5 5 p g').
Proof.
  assert (E1 : run 5 5 (fst bench_start) (snd bench_start)
               = Done (fst bench_first_call, snd bench_first_call))
    by (vm_compute; reflexivity).
  set (second := from_done
         (run 5 5 (fst bench_first_call) (snd bench_first_call)) bench_start).
  assert (E2 : run 5 5 (fst bench_first_call) (snd bench_first_call)
               = Done (fst second, snd second)) by (vm_compute; reflexivity).
  set (single := from_done (run 5 10 (fst bench_start) (snd bench_start))
                   bench_start).
  assert (E3 : run 5 10 (fst bench_start) (snd bench_start)
               = Done (fst single, snd single)) by (vm_compute; reflexivity).
  assert (E4 : iteration 5 0 (fst bench_first_call) (snd bench_first_call)
               = Done (fst bench_new_call, snd bench_new_call))
    by (vm_compute; reflexivity).
  assert (E5 : iteration 5 5 (fst bench_first_call) (snd bench_first_call)
               = Done (fst bench_same_call, snd bench_same_call))
    by (vm_compute; reflexivity).
  exists (fst second), (snd second), (fst single), (snd single).
  assert (HK : (1 < num_chains (fst bench_start))%Z) by (vm_compute; reflexivity).
  assert (HK1 : (1 < num_chains (fst bench_first_call))%Z)
    by (vm_compute; reflexivity).
  destruct (swap_cadence_per_call 5 (fst bench_start) (snd bench_start) HK)
    as (_ & Hcount & Hsplit & Haligned).
  destruct (swap_cadence_per_call 5 (fst bench_first_call) (snd bench_first_call) HK1)
    as (_ & Hcount1 & _).
  destruct (Hsplit 5%Z 5%Z _ _ ltac:(lia) ltac:(lia)
              ltac:(vm_compute; discriminate) E1) as (_ & _ & Hnew & Hsame).
  split; [exact E1|]. split; [exact E2|]. split; [exact E3|].
  split; [|split; [|split; [exact E4|split; [exact E5|split; [|split]]]]].
  - rewrite (Hcount1 5%Z _ _ ltac:(lia) E2).
    rewrite (Hcount 5%Z _ _ ltac:(lia) E1). vm_compute. reflexivity.
  - rewrite (Hcount 10%Z _ _ ltac:(lia) E3). vm_compute. reflexivity.
  - exact (Hnew _ _ E4).
  - exact (Hsame _ _ E5).
  - apply Haligned; [lia | lia | reflexivity].
Defined.

End Bench.

(** * Further properties of the code

    What the kernel, the chains, the ensemble and the diagnostics do beyond
    the specification's statements: their behaviour at the edges, what they
    keep from one call to the next, and how the calls compose. *)

(** ** More of the order of binary64 *)

Module IEEEOrder.
Local Open Scope float_scope.

Lemma ltb_leb x y : (x <? y) = true -> (x <=? y) = true.
Proof.
  rewrite ltb_spec, leb_spec. unfold SFltb, SFleb.
  destruct (SFcompare (Prim2SF x) (Prim2SF y)) as [[]|]; congruence.
Qed.

Lemma ltb_not_nan x y : (x <? y) = true -> is_nan x = false /\ is_nan y = false.
Proof.
  rewrite ltb_spec, !is_nan_spec. unfold SFltb.
  destruct (Prim2SF x) as [a|a| |a m e], (Prim2SF y) as [b|b| |b n f];
    simpl; auto; discriminate.
Qed.

Lemma ltb_false_leb x y :
  is_nan x = false -> is_nan y = false -> (x <? y) = false -> (y <=? x) = true.
Proof.
  rewrite !is_nan_spec, leb_spec, ltb_spec. unfold SFltb, SFleb. intros Hx Hy.
  assert (H : SFcompare (Prim2SF x) (Prim2SF y) <> None)
    by (destruct (Prim2SF x), (Prim2SF y); simpl; congruence).
  rewrite (SFcompare_antisym (Prim2SF x) (Prim2SF y)).
  destruct (SFcompare (Prim2SF x) (Prim2SF y)) as [[]|]; simpl; congruence.
Qed.

Lemma eqb_zero x : (x =? 0) = true -> exists s, Prim2SF x = S754_zero s.
Proof.
  rewrite eqb_spec. change (Prim2SF 0) with (S754_zero false).
  destruct (Prim2SF x) as [a|a| |a m e]; simpl; try discriminate;
    try (destruct a; discriminate). eauto.
Qed.

Lemma div_zero_not_finite x s : (s =? 0) = true -> is_finite (x / s) = false.
Proof.
  intros H. apply eqb_zero in H. destruct H as [b H].
  rewrite is_finite_spec, div_spec, H.
  destruct (Prim2SF x) as [a|a| |a m e]; reflexivity.
Qed.

Lemma leb_false_of_ltb x y : (x <? y) = true -> (y <=? x) = false.
Proof.
  rewrite ltb_spec, leb_spec. unfold SFltb, SFleb.
  rewrite (SFcompare_antisym (Prim2SF x) (Prim2SF y)).
  destruct (SFcompare (Prim2SF x) (Prim2SF y)) as [[]|]; simpl; congruence.
Qed.

End IEEEOrder.

Lemma Done_eq {A : Type} (a b : A) : Done a = Done b -> a = b.
Proof.
  intros H. exact (f_equal (fun o => match o with Done c => c | _ => a end) H).
Qed.

(** ** The proposal kernel *)

Section ProposalKernel.
Context {R : RandomSource}.
Local Open Scope float_scope.
Import IEEEOrder.

(* A step size within the bounds [adapt] keeps. *)
Definition step_size_ok (s : float) : Prop :=
  (0.001 <=? s) = true /\ (s <=? 1.0) = true.

Lemma clamp_ok s : step_size_ok (std_max 0.001 (std_min s 1.0)).
Proof.
  unfold std_min, std_max, step_size_ok.
  destruct (1.0 <? s) eqn:E1.
  - change (0.001 <? 1.0) with true. cbv iota. split; reflexivity.
  - destruct (0.001 <? s) eqn:E2.
    + split; [apply ltb_leb; exact E2|].
      apply ltb_not_nan in E2. destruct E2 as [_ Hs].
      apply ltb_false_leb; [reflexivity | exact Hs | exact E1].
    + split; reflexivity.
Qed.

(** X1: [adapt] changes nothing unless the iteration number is a multiple of
    50; when it is, it keeps the number of step sizes and the state of the
    normal distribution, and every step size it leaves lies in [0.001, 1],
    whatever it was before, a NaN included. *)
Theorem adapt_clamps (iteration : Z) (acceptance_rate : float)
    (pd : ProposalDistribution.t) :
  (Z.rem iteration 50 <> 0%Z ->
   ProposalDistribution.adapt iteration acceptance_rate pd = pd) /\
  (Z.rem iteration 50 = 0%Z ->
   let pd' := ProposalDistribution.adapt iteration acceptance_rate pd in
   length (ProposalDistribution.step_sizes pd')
     = length (ProposalDistribution.step_sizes pd) /\
   Forall step_size_ok (ProposalDistribution.step_sizes pd') /\
   ProposalDistribution.normal_dist pd' = ProposalDistribution.normal_dist pd).
Proof.
  unfold ProposalDistribution.adapt. split; intros H.
  - apply Z.eqb_neq in H. rewrite H. reflexivity.
  - rewrite H. change (0 =? 0)%Z with true. cbv iota zeta. simpl.
    split; [apply length_map|]. split; [|reflexivity].
    apply Forall_forall. intros s Hs. apply in_map_iff in Hs.
    destruct Hs as (s0 & <- & _). apply clamp_ok.
Qed.

Lemma adapt_keeps_ok iteration rate pd :
  length (ProposalDistribution.step_sizes pd) = 4%nat ->
  Forall step_size_ok (ProposalDistribution.step_sizes pd) ->
  length (ProposalDistribution.step_sizes
            (ProposalDistribution.adapt iteration rate pd)) = 4%nat /\
  Forall step_size_ok
    (ProposalDistribution.step_sizes (ProposalDistribution.adapt iteration rate pd)).
Proof.
  intros Hl Hf. unfold ProposalDistribution.adapt.
  destruct (Z.rem iteration 50 =? 0)%Z; [|auto]. simpl.
  split; [rewrite length_map; exact Hl|].
  apply Forall_forall. intros s Hs. apply in_map_iff in Hs.
  destruct Hs as (s0 & <- & _). apply clamp_ok.
Qed.

(* The loop of the slope. *)
Lemma abs_of_positive x : (x <=? 0) = false -> is_nan x = false -> abs x = x.
Proof.
  rewrite leb_spec, is_nan_spec. change (Prim2SF 0) with (S754_zero false).
  intros H Hn. apply Prim2SF_inj. rewrite abs_spec.
  destruct (Prim2SF x) as [a|a| |a m e]; simpl in *; try discriminate;
    destruct a; simpl in *; try discriminate; reflexivity.
Qed.

Lemma abs_of_negative x : (x <=? 0) = true -> (x =? 0) = false -> abs x = - x.
Proof.
  rewrite leb_spec, eqb_spec. change (Prim2SF 0) with (S754_zero false).
  intros H Hn. apply Prim2SF_inj. rewrite abs_spec, opp_spec.
  destruct (Prim2SF x) as [a|a| |a m e]; simpl in *; try discriminate;
    destruct a; simpl in *; try discriminate; reflexivity.
Qed.

Lemma opp_of_negative x : (x <=? 0) = true -> (x =? 0) = false -> (- x <=? 0) = false.
Proof.
  rewrite !leb_spec, eqb_spec, opp_spec. change (Prim2SF 0) with (S754_zero false).
  destruct (Prim2SF x) as [a|a| |a m e]; simpl in *; try discriminate;
    destruct a; simpl in *; try discriminate; reflexivity.
Qed.

Lemma abs_nan : abs nan = nan.
Proof. reflexivity. Qed.

(** X2: the reflection loop of the slope, with at least one unit of fuel: a
    candidate equal to zero (of either sign) never leaves the loop; every
    other candidate leaves it as its absolute value, after at most one
    reflection (a NaN candidate leaves it as it is). *)
Theorem reflect_positive_spec (fuel : nat) (x : float) :
  ProposalDistribution.reflect_positive (S fuel) x =
  if x =? 0 then Diverges else Done (abs x).
Proof.
  destruct (x =? 0) eqn:E0.
  - apply eqb_zero in E0. destruct E0 as [s E0].
    apply reflect_positive_stuck_at_zero.
    destruct s; [right|left]; apply Prim2SF_inj; rewrite E0; reflexivity.
  - cbn [ProposalDistribution.reflect_positive].
    destruct (x <=? 0) eqn:E1.
    + pose proof (opp_of_negative x E1 E0) as E2.
      destruct fuel; cbn [ProposalDistribution.reflect_positive]; rewrite E2;
        rewrite (abs_of_negative x E1 E0); reflexivity.
    + destruct (is_nan x) eqn:En.
      * apply is_nan_eq in En. subst x. reflexivity.
      * rewrite (abs_of_positive x E1 En). reflexivity.
Qed.

(* The loop of the floor and the ceiling. *)
Lemma SFcompare_opp a b : SFcompare (SFopp a) (SFopp b) = SFcompare b a.
Proof.
  destruct a as [a|a| |a m e], b as [b|b| |b n f]; simpl; try reflexivity;
    sf_cases; cmp_cases.
Qed.

Lemma leb_opp x y : (- x <=? - y) = (y <=? x).
Proof. rewrite !leb_spec, !opp_spec. unfold SFleb. rewrite SFcompare_opp. reflexivity. Qed.

Lemma ltb_not_eqb x y : (x <? y) = true -> (x =? y) = false.
Proof.
  rewrite ltb_spec, eqb_spec. unfold SFltb, SFeqb.
  destruct (SFcompare (Prim2SF x) (Prim2SF y)) as [[]|]; congruence.
Qed.

Lemma reflect_unit_interior fuel x :
  (0 <? x) = true -> (x <? 1) = true ->
  ProposalDistribution.reflect_unit fuel x = Done x.
Proof.
  intros H0 H1. apply leb_false_of_ltb in H0. apply leb_false_of_ltb in H1.
  destruct fuel; cbn [ProposalDistribution.reflect_unit]; rewrite H0, H1;
    reflexivity.
Qed.



(** X3: the reflection loop of the floor and the ceiling returns a candidate
    strictly inside (0, 1) unchanged, whatever the fuel; a candidate strictly
    between -1 and 0 is reflected once, to [-x], which lies strictly inside
    (0, 1). *)
Theorem reflect_unit_near (fuel : nat) (x : float) :
  ((0 <? x) = true -> (x <? 1) = true ->
   ProposalDistribution.reflect_unit fuel x = Done x) /\
  ((-1 <? x) = true -> (x <? 0) = true ->
   ProposalDistribution.reflect_unit (S fuel) x = Done (- x) /\
   (0 <? - x) = true /\ (- x <? 1) = true).
Proof.
  split; [apply reflect_unit_interior|]. intros Hm H0.
  assert (E1 : (x <=? 0) = true) by (apply ltb_leb; exact H0).
  assert (E2 : (x =? 0) = false) by (apply ltb_not_eqb; exact H0).
  assert (E3 : (- x <=? 0) = false) by (apply opp_of_negative; assumption).
  assert (E4 : (1 <=? - x) = false).
  { change 1 with (- (-1)). rewrite leb_opp. apply leb_false_of_ltb. exact Hm. }
  assert (Hn : is_nan (- x) = false).
  { rewrite is_nan_spec, opp_spec. apply ltb_not_nan in H0. destruct H0 as [H0 _].
    rewrite is_nan_spec in H0. destruct (Prim2SF x); simpl; congruence. }
  assert (P0 : (0 <? - x) = true) by (apply leb_false_ltb; [exact Hn | reflexivity | exact E3]).
  assert (P1 : (- x <? 1) = true) by (apply leb_false_ltb; [reflexivity | exact Hn | exact E4]).
  split; [|split; assumption].
  cbn [ProposalDistribution.reflect_unit]. rewrite E1. cbn [orb]. rewrite E4.
  apply reflect_unit_interior; assumption.
Qed.


End ProposalKernel.

(** ** Invariants of the chains of an ensemble

    A property of a chain that a step and a swap keep, and that a new chain
    has, holds of every chain at the end of every session. *)

Section ChainInvariants.
Context {L : Libm} {R : RandomSource}.
Local Open Scope float_scope.
Import ParallelTemperingMCMC.

Variable d : Data.
Variable pr : Priors.
Variable P : MCMCChain.t -> Prop.

Hypothesis P_step : forall fuel c g c' g',
  P c -> MCMCChain.step fuel d pr c g = Done (c', g') -> P c'.
Hypothesis P_set : forall c1 c2 c',
  P c1 -> P c2 ->
  MCMCChain.set_current (MCMCChain.current c2) d pr c1 = Done c' -> P c'.

Lemma step_all_keeps fuel cs :
  forall g cs' g',
  Forall P cs -> step_all fuel d pr cs g = Done (cs', g') -> Forall P cs'.
Proof.
  induction cs as [|c cs IH]; intros g cs' g' Hok H; simpl in H.
  - injection H as <- _. constructor.
  - inv_bind H. destruct a as [c1 g1]. inv_bind Hr. destruct a as [rest g2].
    injection Hrr as <- _. inversion Hok; subst. constructor.
    + eapply P_step; eassumption.
    + eapply IH; eassumption.
Qed.

Lemma attempt_swap_keeps pt g pt' g' :
  data pt = d -> priors pt = pr -> Forall P (chains pt) ->
  attempt_swap pt g = Done (pt', g') -> Forall P (chains pt').
Proof.
  unfold attempt_swap. intros Hd Hp Hok H. rewrite Hd, Hp in H.
  destruct (uniform_int 0 (num_chains pt - 2) g) as [i g1].
  inv_bind H. rename a into ci. inv_bind Hr. rename a into cj.
  inv_bind Hrr. rename a into tj. inv_bind Hrrr. rename a into ti.
  destruct (uniform_real 0 1 g1) as [u g2].
  destruct (log u <? _).
  - inv_bind Hrrrr. rename a into ci'. inv_bind Hrrrrr. rename a into cs1.
    inv_bind Hrrrrrr. rename a into cj0. inv_bind Hrrrrrrr. rename a into cj'.
    inv_bind Hrrrrrrrr. rename a into cs2.
    injection Hrrrrrrrrr as <- _. simpl.
    apply vec_set_Done in Hrrrrrl, Hrrrrrrrrl.
    destruct Hrrrrrl as [_ ->], Hrrrrrrrrl as [_ ->].
    pose proof (vec_at_Forall P _ _ _ Hok Hl) as Pi.
    pose proof (vec_at_Forall P _ _ _ Hok Hrl) as Pj.
    unfold MCMCChain.get_current in *.
    assert (Pi' : P ci') by (eapply (P_set ci cj); eassumption).
    assert (Hok1 : Forall P (list_set (chains pt) (Z.to_nat i) ci'))
      by (apply Forall_list_set; assumption).
    pose proof (vec_at_Forall P _ _ _ Hok1 Hrrrrrrl) as Pj0.
    apply Forall_list_set; [exact Hok1|].
    eapply (P_set cj0 ci); eassumption.
  - injection Hrrrr as <- _. exact Hok.
Qed.

Lemma iteration_keeps fuel iter pt g pt' g' :
  data pt = d -> priors pt = pr -> Forall P (chains pt) ->
  iteration fuel iter pt g = Done (pt', g') -> Forall P (chains pt').
Proof.
  unfold iteration. intros Hd Hp Hok H. inv_bind H. destruct a as [cs g1].
  rewrite Hd, Hp in Hl.
  pose proof (step_all_keeps _ _ _ _ _ Hok Hl) as Hok1.
  simpl in Hr.
  destruct ((Z.rem iter 10 =? 0) && (1 <? num_chains pt))%Z.
  - eapply attempt_swap_keeps; [| | |exact Hr]; assumption.
  - injection Hr as <- _. exact Hok1.
Qed.

Lemma run_loop_keeps fuel count :
  forall iter pt g pt' g',
  data pt = d -> priors pt = pr -> Forall P (chains pt) ->
  run_loop fuel count iter pt g = Done (pt', g') ->
  data pt' = d /\ priors pt' = pr /\ Forall P (chains pt').
Proof.
  induction count as [|count IH]; intros iter pt g pt' g' Hd Hp Hok H; simpl in H.
  - injection H as <- _. auto.
  - inv_bind H. destruct a as [pt1 g1].
    pose proof (iteration_keeps _ _ _ _ _ _ Hd Hp Hok Hl) as Hok1.
    apply iteration_inv in Hl. destruct Hl as (_ & _ & _ & Hd1 & Hp1 & _).
    eapply IH; [| | |exact Hr]; congruence.
Qed.

Lemma runs_keeps fuel ns :
  forall pt g pt' g',
  data pt = d -> priors pt = pr -> Forall P (chains pt) ->
  runs fuel ns pt g = Done (pt', g') ->
  data pt' = d /\ priors pt' = pr /\ Forall P (chains pt').
Proof.
  induction ns as [|n ns IH]; intros pt g pt' g' Hd Hp Hok H; simpl in H.
  - injection H as <- _. auto.
  - inv_bind H. destruct a as [pt1 g1]. unfold run in Hl.
    apply run_loop_keeps in Hl; try assumption.
    destruct Hl as (Hd1 & Hp1 & Hok1). eapply IH; eassumption.
Qed.

Hypothesis P_new : forall T init c,
  theta_ok init -> MCMCChain.new T init d pr = Done c -> P c.

Lemma init_loop_keeps count :
  forall i temps cs g cs' g',
  Forall P cs -> init_loop count i temps d pr cs g = Done (cs', g') ->
  Forall P cs'.
Proof.
  induction count as [|count IH]; intros i temps cs g cs' g' Hok H; simpl in H.
  - injection H as <- _. exact Hok.
  - pose proof (initial_draws_ok g) as Hinit.
    destruct (uniform_real 0.01 0.5 g) as [f g1].
    destruct (uniform_real 0.1 0.9 g1) as [c g2].
    destruct (uniform_real (-2.0) 2.0 g2) as [e g3].
    destruct (uniform_real 0.1 3.0 g3) as [s g4].
    inv_bind H. rename a into temp. inv_bind Hr. rename a into chain.
    eapply IH; [|exact Hrr].
    apply Forall_app. split; [exact Hok|]. constructor; [|constructor].
    eapply P_new; eassumption.
Qed.

Lemma construct_keeps K g pt g' :
  construct K d pr g = Done (pt, g') ->
  data pt = d /\ priors pt = pr /\ Forall P (chains pt).
Proof.
  unfold construct. destruct (K <? 0)%Z; [discriminate|]. intros H.
  inv_bind H. rename a into temps. inv_bind Hr. destruct a as [cs g1].
  injection Hrr as <- _. simpl. split; [reflexivity|]. split; [reflexivity|].
  eapply init_loop_keeps; [|exact Hrl]. constructor.
Qed.

Lemma session_keeps fuel seed K ns g0 pt g :
  session fuel seed K d pr ns g0 = Done (pt, g) -> Forall P (chains pt).
Proof.
  unfold session. intros H. inv_bind H. destruct a as [pt0 g1].
  apply construct_keeps in Hl. destruct Hl as (Hd & Hp & Hok).
  eapply runs_keeps in Hr; try eassumption. tauto.
Qed.

End ChainInvariants.

(** ** What the sampler keeps *)

Section Kept.
Context {L : Libm} {R : RandomSource}.
Local Open Scope float_scope.
Import ParallelTemperingMCMC.

(* The proposer of a chain: four step sizes, each within the bounds of
   [adapt]. *)
Definition proposal_ok (c : MCMCChain.t) : Prop :=
  length (ProposalDistribution.step_sizes (MCMCChain.proposal c)) = 4%nat /\
  Forall step_size_ok (ProposalDistribution.step_sizes (MCMCChain.proposal c)).

(* The counters of a chain agree with its trace. *)
Definition counters_ok (c : MCMCChain.t) : Prop :=
  (0 <= MCMCChain.accepted c <= MCMCChain.total c)%Z /\
  MCMCChain.total c = vec_size (MCMCChain.samples c).

(* The state of a chain and every state it has stored lie in the domain. *)
Definition trace_ok (c : MCMCChain.t) : Prop :=
  theta_ok (MCMCChain.current c) /\ Forall theta_ok (MCMCChain.samples c).

(* The cached log-posterior is that of the current state at the chain's own
   temperature. *)
Definition cache_ok (d : Data) (pr : Priors) (c : MCMCChain.t) : Prop :=
  log_posterior_tempered (MCMCChain.current c) d pr (MCMCChain.temperature c)
  = Done (MCMCChain.current_log_posterior c).

Lemma propose_step_sizes fuel pd cur g p pd' g' :
  ProposalDistribution.propose fuel pd cur g = Done (p, pd', g') ->
  ProposalDistribution.step_sizes pd' = ProposalDistribution.step_sizes pd.
Proof.
  unfold ProposalDistribution.propose. intros H.
  inv_bind H. destruct (normal_draw _ g) as [[z1 n1] g1].
  inv_bind Hr. inv_bind Hrr. destruct (normal_draw n1 g1) as [[z2 n2] g2].
  inv_bind Hrrr. inv_bind Hrrrr. destruct (normal_draw n2 g2) as [[z3 n3] g3].
  inv_bind Hrrrrr. destruct (normal_draw n3 g3) as [[z4 n4] g4].
  inv_bind Hrrrrrr. apply Done_eq in Hrrrrrrr.
  apply (f_equal (fun r => ProposalDistribution.step_sizes (snd (fst r))))
    in Hrrrrrrr. simpl in Hrrrrrrr. congruence.
Qed.

(* The proposer a step leaves: the one [propose] left, adapted when the step
   counter reaches a multiple of 50. *)
Lemma step_proposal fuel d pr c g c' g' :
  MCMCChain.step fuel d pr c g = Done (c', g') ->
  exists pd,
    ProposalDistribution.step_sizes pd
      = ProposalDistribution.step_sizes (MCMCChain.proposal c) /\
    MCMCChain.proposal c' =
      if (Z.rem (MCMCChain.total c') 50 =? 0)%Z then
        ProposalDistribution.adapt (MCMCChain.total c')
          (double_of_Z (MCMCChain.accepted c') / double_of_Z (MCMCChain.total c'))
          pd
      else pd.
Proof.
  unfold MCMCChain.step. intros H.
  inv_bind H. destruct a as [[proposed pd] g1].
  inv_bind Hr. rename a into plp.
  destruct (uniform_real 0 1 g1) as [u g2].
  injection Hrr as Hc Hg. subst c' g'. simpl.
  exists pd. split; [eapply propose_step_sizes; eassumption | reflexivity].
Qed.

Lemma set_current_frame p d pr c c' :
  MCMCChain.set_current p d pr c = Done c' ->
  MCMCChain.current c' = p /\
  log_posterior_tempered p d pr (MCMCChain.temperature c)
    = Done (MCMCChain.current_log_posterior c') /\
  MCMCChain.temperature c' = MCMCChain.temperature c /\
  MCMCChain.proposal c' = MCMCChain.proposal c /\
  MCMCChain.accepted c' = MCMCChain.accepted c /\
  MCMCChain.total c' = MCMCChain.total c /\
  MCMCChain.samples c' = MCMCChain.samples c.
Proof.
  unfold MCMCChain.set_current. intros H. inv_bind H.
  injection Hr as <-. simpl. auto 10.
Qed.

Lemma new_frame T init d pr c :
  MCMCChain.new T init d pr = Done c ->
  MCMCChain.current c = init /\
  log_posterior_tempered init d pr T = Done (MCMCChain.current_log_posterior c) /\
  MCMCChain.temperature c = T /\
  MCMCChain.proposal c = ProposalDistribution.new /\
  MCMCChain.accepted c = 0%Z /\ MCMCChain.total c = 0%Z /\
  MCMCChain.samples c = [].
Proof.
  unfold MCMCChain.new. intros H. inv_bind H.
  injection Hr as <-. simpl. auto 10.
Qed.

Lemma new_step_sizes_ok :
  length (ProposalDistribution.step_sizes ProposalDistribution.new) = 4%nat /\
  Forall step_size_ok (ProposalDistribution.step_sizes ProposalDistribution.new).
Proof.
  split; [reflexivity|]. simpl.
  repeat constructor.
Qed.

(* Each of the four is kept by a step and by a swap, and holds of a new
   chain. *)
Lemma proposal_ok_step fuel d pr c g c' g' :
  proposal_ok c -> MCMCChain.step fuel d pr c g = Done (c', g') -> proposal_ok c'.
Proof.
  unfold proposal_ok. intros [Hl Hf] H. apply step_proposal in H.
  destruct H as (pd & Hpd & ->). rewrite <- Hpd in Hl, Hf.
  destruct (Z.rem (MCMCChain.total c') 50 =? 0)%Z; [|auto].
  apply adapt_keeps_ok; assumption.
Qed.

Lemma proposal_ok_set d pr c1 c2 c' :
  proposal_ok c1 -> proposal_ok c2 ->
  MCMCChain.set_current (MCMCChain.current c2) d pr c1 = Done c' -> proposal_ok c'.
Proof.
  unfold proposal_ok. intros H1 _ H. apply set_current_frame in H.
  destruct H as (_ & _ & _ & -> & _). exact H1.
Qed.

Lemma proposal_ok_new d pr T init c :
  theta_ok init -> MCMCChain.new T init d pr = Done c -> proposal_ok c.
Proof.
  unfold proposal_ok. intros _ H. apply new_frame in H.
  destruct H as (_ & _ & _ & -> & _). exact new_step_sizes_ok.
Qed.

Lemma counters_ok_step fuel d pr c g c' g' :
  counters_ok c -> MCMCChain.step fuel d pr c g = Done (c', g') -> counters_ok c'.
Proof.
  unfold counters_ok, vec_size. intros [Ha Ht] H. apply step_inv in H.
  destruct H as (proposed & pd & g1 & plp & _ & _ & H). cbv zeta in H.
  destruct H as (_ & _ & _ & Hacc & Htot & _ & Hs).
  rewrite Hs, length_app, Htot, Hacc. simpl.
  destruct (log _ <? _); lia.
Qed.

Lemma counters_ok_set d pr c1 c2 c' :
  counters_ok c1 -> counters_ok c2 ->
  MCMCChain.set_current (MCMCChain.current c2) d pr c1 = Done c' -> counters_ok c'.
Proof.
  unfold counters_ok. intros H1 _ H. apply set_current_frame in H.
  destruct H as (_ & _ & _ & _ & -> & -> & ->). exact H1.
Qed.

Lemma counters_ok_new d pr T init c :
  theta_ok init -> MCMCChain.new T init d pr = Done c -> counters_ok c.
Proof.
  unfold counters_ok. intros _ H. apply new_frame in H.
  destruct H as (_ & _ & _ & _ & -> & -> & ->). simpl. split; [lia | reflexivity].
Qed.

Lemma trace_ok_step fuel d pr c g c' g' :
  trace_ok c -> MCMCChain.step fuel d pr c g = Done (c', g') -> trace_ok c'.
Proof.
  unfold trace_ok. intros [Hc Hs] H.
  pose proof (step_preserves_domain _ _ _ _ _ _ _ Hc H) as Hc'.
  apply step_inv in H.
  destruct H as (proposed & pd & g1 & plp & _ & _ & H). cbv zeta in H.
  destruct H as (_ & _ & _ & _ & _ & _ & ->).
  split; [exact Hc'|]. apply Forall_app. split; [exact Hs|].
  constructor; [exact Hc' | constructor].
Qed.

Lemma trace_ok_set d pr c1 c2 c' :
  trace_ok c1 -> trace_ok c2 ->
  MCMCChain.set_current (MCMCChain.current c2) d pr c1 = Done c' -> trace_ok c'.
Proof.
  unfold trace_ok. intros [_ H1] [H2 _] H. apply set_current_frame in H.
  destruct H as (-> & _ & _ & _ & _ & _ & ->). auto.
Qed.

Lemma trace_ok_new d pr T init c :
  theta_ok init -> MCMCChain.new T init d pr = Done c -> trace_ok c.
Proof.
  unfold trace_ok. intros Hi H. apply new_frame in H.
  destruct H as (-> & _ & _ & _ & _ & _ & ->). auto.
Qed.

Lemma cache_ok_step fuel d pr c g c' g' :
  cache_ok d pr c -> MCMCChain.step fuel d pr c g = Done (c', g') ->
  cache_ok d pr c'.
Proof.
  unfold cache_ok. intros Hc H. apply step_inv in H.
  destruct H as (proposed & pd & g1 & plp & _ & Hlp & H). cbv zeta in H.
  destruct H as (_ & -> & -> & _ & _ & -> & _).
  destruct (log _ <? _); assumption.
Qed.

Lemma cache_ok_set d pr c1 c2 c' :
  cache_ok d pr c1 -> cache_ok d pr c2 ->
  MCMCChain.set_current (MCMCChain.current c2) d pr c1 = Done c' ->
  cache_ok d pr c'.
Proof.
  unfold cache_ok. intros _ _ H. apply set_current_frame in H.
  destruct H as (-> & Hlp & -> & _). exact Hlp.
Qed.

Lemma cache_ok_new d pr T init c :
  theta_ok init -> MCMCChain.new T init d pr = Done c -> cache_ok d pr c.
Proof.
  unfold cache_ok. intros _ H. apply new_frame in H.
  destruct H as (-> & Hlp & -> & _). exact Hlp.
Qed.

(** X5: at the end of every session each chain's proposer holds four step
    sizes, each within [0.001, 1]: the constructor starts them at 0.1, the
    proposal leaves them alone and the adaptation clamps them. *)
Theorem step_sizes_stay_bounded (fuel : nat) (seed K : Z) (d : Data) (p : Priors)
    (ns : list Z) (g0 : rng_state) (pt : t) (g : rng_state) :
  session fuel seed K d p ns g0 = Done (pt, g) ->
  Forall proposal_ok (chains pt).
Proof.
  apply (session_keeps d p proposal_ok).
  - intros f c h c' h'. apply proposal_ok_step.
  - apply proposal_ok_set.
  - apply proposal_ok_new.
Qed.

(** X6: at the end of every session the state of each chain and every state
    stored in its trace lie in the domain; so does every state
    [get_samples] returns. *)
Theorem stored_samples_in_domain (fuel : nat) (seed K : Z) (d : Data) (p : Priors)
    (ns : list Z) (g0 : rng_state) (pt : t) (g : rng_state) :
  session fuel seed K d p ns g0 = Done (pt, g) ->
  Forall trace_ok (chains pt) /\
  forall trace, get_samples pt = Done trace -> Forall theta_ok trace.
Proof.
  intros H.
  assert (Hok : Forall trace_ok (chains pt)).
  { revert H. apply (session_keeps d p trace_ok).
    - intros f c h c' h'. apply trace_ok_step.
    - apply trace_ok_set.
    - apply trace_ok_new. }
  split; [exact Hok|]. unfold get_samples. intros trace Ht. inv_bind Ht.
  injection Htr as <-.
  exact (proj2 (vec_at_Forall trace_ok _ _ _ Hok Htl)).
Qed.

(** X7: at the end of every session the log-posterior cached on each chain
    is the tempered log-posterior of the chain's current state at the chain's
    own temperature: the constructor, an accepted proposal and [set_current]
    each store the value they have just computed for that state. *)
Theorem cached_log_posterior_is_current (fuel : nat) (seed K : Z) (d : Data)
    (p : Priors) (ns : list Z) (g0 : rng_state) (pt : t) (g : rng_state) :
  session fuel seed K d p ns g0 = Done (pt, g) ->
  Forall (cache_ok d p) (chains pt).
Proof.
  apply (session_keeps d p (cache_ok d p)).
  - intros f c h c' h'. apply cache_ok_step.
  - apply cache_ok_set.
  - apply cache_ok_new.
Qed.

(** X23: a step that returns leaves the step sizes alone unless the step
    counter it has just incremented is a multiple of 50 (the second test of
    the same condition inside [adapt] never fails); at those steps every
    step size [s] becomes [max(0.001, min(s * scale, 1))], where [scale] is
    1.01 when [accepted / total], taken after the step, exceeds 0.234 and
    0.99 otherwise (also when the rate is NaN). *)
Theorem step_adapts_every_fifty (fuel : nat) (d : Data) (pr : Priors)
    (c : MCMCChain.t) (g : rng_state) (c' : MCMCChain.t) (g' : rng_state) :
  MCMCChain.step fuel d pr c g = Done (c', g') ->
  let rate := double_of_Z (MCMCChain.accepted c') / double_of_Z (MCMCChain.total c') in
  let scale := if 0.234 <? rate then 1.01 else 0.99 in
  MCMCChain.total c' = (MCMCChain.total c + 1)%Z /\
  ProposalDistribution.step_sizes (MCMCChain.proposal c') =
    if (Z.rem (MCMCChain.total c') 50 =? 0)%Z then
      map (fun s => std_max 0.001 (std_min (s * scale) 1.0))
          (ProposalDistribution.step_sizes (MCMCChain.proposal c))
    else ProposalDistribution.step_sizes (MCMCChain.proposal c).
Proof.
  intros H rate scale. pose proof (step_proposal _ _ _ _ _ _ _ H) as (pd & Hpd & Hp).
  apply step_inv in H. destruct H as (proposed & pd0 & g1 & plp & _ & _ & H).
  cbv zeta in H. destruct H as (_ & _ & _ & _ & Htot & _).
  split; [exact Htot|]. rewrite Hp.
  destruct (Z.rem (MCMCChain.total c') 50 =? 0)%Z eqn:E; [|exact Hpd].
  unfold ProposalDistribution.adapt. rewrite E. simpl. rewrite Hpd. reflexivity.
Qed.

End Kept.

(** ** What a call of [run] adds *)

Lemma Forall2_refl_of {A : Type} (Rl : A -> A -> Prop) (l : list A) :
  (forall a, Rl a a) -> Forall2 Rl l l.
Proof. intros H. induction l; constructor; auto. Qed.

Lemma Forall2_compose {A : Type} (R1 R2 R3 : A -> A -> Prop) (l1 l2 l3 : list A) :
  (forall a b c, R1 a b -> R2 b c -> R3 a c) ->
  Forall2 R1 l1 l2 -> Forall2 R2 l2 l3 -> Forall2 R3 l1 l3.
Proof.
  intros H H12. revert l3. induction H12 as [|a b l1 l2 Hab H12 IH]; intros l3 H23;
    inversion H23; subst; constructor; eauto.
Qed.

Lemma Forall2_nth_error {A : Type} (Rl : A -> A -> Prop) (l l' : list A) (i : nat)
    (a b : A) :
  Forall2 Rl l l' -> nth_error l i = Some a -> nth_error l' i = Some b -> Rl a b.
Proof.
  intros H. revert i. induction H as [|x y l l' Hxy H IH]; intros [|i]; simpl;
    try discriminate.
  - congruence.
  - apply IH.
Qed.

Lemma Forall2_list_set {A : Type} (Rl : A -> A -> Prop) (l l' : list A) (i : nat)
    (b : A) :
  Forall2 Rl l l' -> (forall a, nth_error l i = Some a -> Rl a b) ->
  Forall2 Rl l (list_set l' i b).
Proof.
  intros H. revert i. induction H as [|x y l l' Hxy H IH]; intros [|i] Hb; simpl;
    constructor; auto.
Qed.

Section Growth.
Context {L : Libm} {R : RandomSource}.
Local Open Scope Z_scope.
Import ParallelTemperingMCMC.

(* The chain [c'] is the chain [c] after [n] more steps: [n] more states at the
   end of its trace, as many on its step counter and at most as many on the
   count of acceptances; its temperature is the same. *)
Definition grown (n : Z) (c c' : MCMCChain.t) : Prop :=
  MCMCChain.total c' = MCMCChain.total c + n /\
  MCMCChain.accepted c <= MCMCChain.accepted c' <= MCMCChain.accepted c + n /\
  MCMCChain.temperature c' = MCMCChain.temperature c /\
  exists new, MCMCChain.samples c' = MCMCChain.samples c ++ new /\ vec_size new = n.

Lemma grown_refl c : grown 0 c c.
Proof.
  unfold grown. split; [lia|]. split; [lia|]. split; [reflexivity|].
  exists []. split; [symmetry; apply app_nil_r | reflexivity].
Qed.

Lemma grown_trans a b c1 c2 c3 :
  grown a c1 c2 -> grown b c2 c3 -> grown (a + b) c1 c3.
Proof.
  unfold grown, vec_size. intros (T1 & A1 & E1 & n1 & S1 & L1) (T2 & A2 & E2 & n2 & S2 & L2).
  split; [lia|]. split; [lia|]. split; [congruence|].
  exists (n1 ++ n2). rewrite S2, S1, <- app_assoc, length_app. split; [reflexivity | lia].
Qed.

Lemma step_grown fuel d pr c g c' g' :
  MCMCChain.step fuel d pr c g = Done (c', g') -> grown 1 c c'.
Proof.
  intros H. apply step_inv in H.
  destruct H as (proposed & pd & g1 & plp & _ & _ & H). cbv zeta in H.
  destruct H as (_ & _ & _ & Hacc & Htot & Htemp & Hs).
  unfold grown. split; [exact Htot|]. split; [|split; [exact Htemp|]].
  - rewrite Hacc. destruct (PrimFloat.ltb _ _); lia.
  - exists [MCMCChain.current c']. split; [exact Hs | reflexivity].
Qed.

Lemma set_current_grown p d pr c c' :
  MCMCChain.set_current p d pr c = Done c' -> grown 0 c c'.
Proof.
  intros H. apply set_current_frame in H.
  destruct H as (_ & _ & Ht & _ & Ha & Htot & Hs). unfold grown.
  rewrite Ht, Ha, Htot, Hs. split; [lia|]. split; [lia|]. split; [reflexivity|].
  exists []. split; [symmetry; apply app_nil_r | reflexivity].
Qed.

Lemma step_all_grown fuel d pr cs :
  forall g cs' g',
  step_all fuel d pr cs g = Done (cs', g') -> Forall2 (grown 1) cs cs'.
Proof.
  induction cs as [|c cs IH]; intros g cs' g' H; simpl in H.
  - injection H as <- _. constructor.
  - inv_bind H. destruct a as [c1 g1]. inv_bind Hr. destruct a as [rest g2].
    injection Hrr as <- _. constructor.
    + eapply step_grown; eassumption.
    + eapply IH; eassumption.
Qed.

(* A swap attempt changes no counter, no trace and no temperature; it counts
   itself, and counts an acceptance at most once. *)
Lemma attempt_swap_grown pt g pt' g' :
  attempt_swap pt g = Done (pt', g') ->
  Forall2 (grown 0) (chains pt) (chains pt') /\
  swap_accepted pt <= swap_accepted pt' <= swap_accepted pt + 1.
Proof.
  unfold attempt_swap. intros H.
  destruct (uniform_int 0 (num_chains pt - 2) g) as [i g1].
  inv_bind H. rename a into ci. inv_bind Hr. rename a into cj.
  inv_bind Hrr. rename a into tj. inv_bind Hrrr. rename a into ti.
  destruct (uniform_real 0 1 g1) as [u g2].
  destruct (PrimFloat.ltb (log u) _).
  - inv_bind Hrrrr. rename a into ci'. inv_bind Hrrrrr. rename a into cs1.
    inv_bind Hrrrrrr. rename a into cj0. inv_bind Hrrrrrrr. rename a into cj'.
    inv_bind Hrrrrrrrr. rename a into cs2.
    injection Hrrrrrrrrr as <- _. simpl. split; [|lia].
    apply vec_set_Done in Hrrrrrl, Hrrrrrrrrl.
    destruct Hrrrrrl as [_ ->], Hrrrrrrrrl as [_ ->].
    apply set_current_grown in Hrrrrl, Hrrrrrrrl.
    apply vec_at_Done in Hl, Hrrrrrrl. destruct Hl as [_ Hl], Hrrrrrrl as [_ Hj0].
    assert (H1 : Forall2 (grown 0) (chains pt)
                   (list_set (chains pt) (Z.to_nat i) ci')).
    { apply Forall2_list_set; [apply Forall2_refl_of, grown_refl|].
      intros a Ha. rewrite Hl in Ha. injection Ha as <-. exact Hrrrrl. }
    apply Forall2_list_set; [exact H1|].
    intros a Ha. change 0 with (0 + 0).
    eapply grown_trans; [|exact Hrrrrrrrl].
    eapply Forall2_nth_error; eassumption.
  - injection Hrrrr as <- _. simpl. split; [|lia].
    apply Forall2_refl_of, grown_refl.
Qed.

Lemma iteration_grown fuel iter pt g pt' g' :
  iteration fuel iter pt g = Done (pt', g') ->
  Forall2 (grown 1) (chains pt) (chains pt') /\
  0 <= swap_accepted pt' - swap_accepted pt <= swap_total pt' - swap_total pt /\
  (num_chains pt <= 1 ->
   swap_accepted pt' = swap_accepted pt /\ swap_total pt' = swap_total pt).
Proof.
  unfold iteration. intros H. inv_bind H. destruct a as [cs g1].
  apply step_all_grown in Hl. simpl in Hr.
  destruct (Z.ltb_spec 1 (num_chains pt)) as [HK|HK].
  - destruct (Z.rem iter 10 =? 0); simpl in Hr.
    + pose proof (attempt_swap_inv _ _ _ _ Hr) as (Ht & _).
      apply attempt_swap_grown in Hr. simpl in *. destruct Hr as [Hg Ha].
      split; [|split; [lia|lia]].
      eapply Forall2_compose; [|exact Hl|exact Hg].
      intros a b c Hab Hbc. change 1 with (1 + 0). eapply grown_trans; eassumption.
    + injection Hr as <- _. simpl. split; [exact Hl|]. split; lia.
  - rewrite andb_false_r in Hr. injection Hr as <- _. simpl.
    split; [exact Hl|]. split; lia.
Qed.

Lemma run_loop_grown fuel count :
  forall iter pt g pt' g',
  run_loop fuel count iter pt g = Done (pt', g') ->
  Forall2 (grown (Z.of_nat count)) (chains pt) (chains pt') /\
  0 <= swap_accepted pt' - swap_accepted pt <= swap_total pt' - swap_total pt /\
  (num_chains pt <= 1 ->
   swap_accepted pt' = swap_accepted pt /\ swap_total pt' = swap_total pt).
Proof.
  induction count as [|count IH]; intros iter pt g pt' g' H; simpl run_loop in H.
  - injection H as <- _. split; [apply Forall2_refl_of, grown_refl|]. split; lia.
  - inv_bind H. destruct a as [pt1 g1].
    pose proof (iteration_inv _ _ _ _ _ _ Hl) as (_ & HK & _).
    apply iteration_grown in Hl. apply IH in Hr.
    destruct Hl as (G1 & A1 & S1), Hr as (G2 & A2 & S2). rewrite HK in S2.
    split; [|split; [lia|intros HK1; specialize (S1 HK1); specialize (S2 HK1); lia]].
    eapply Forall2_compose; [|exact G1|exact G2].
    intros a b c Hab Hbc. replace (Z.of_nat (S count)) with (1 + Z.of_nat count) by lia.
    eapply grown_trans; eassumption.
Qed.

(** X8: a call [run(n)] with [n <= 0] changes nothing and draws nothing; a
    call with [n >= 0] that returns has added exactly [n] states at the end of
    every chain's trace, keeping what was stored, [n] to every chain's step
    counter and between 0 and [n] to its count of acceptances, and has left
    the temperatures, the data, the priors and the number of chains as they
    were. *)
Theorem run_appends (fuel : nat) (n : Z) (pt : t) (g : rng_state) (pt' : t)
    (g' : rng_state) :
  run fuel n pt g = Done (pt', g') ->
  (n <= 0 -> pt' = pt /\ g' = g) /\
  (0 <= n ->
   Forall2 (grown n) (chains pt) (chains pt') /\
   temperatures pt' = temperatures pt /\ data pt' = data pt /\
   priors pt' = priors pt /\ num_chains pt' = num_chains pt).
Proof.
  unfold run. intros H. split; intros Hn.
  - replace (Z.to_nat n) with 0%nat in H by lia. simpl in H.
    injection H as <- <-. auto.
  - pose proof (run_loop_grown _ _ _ _ _ _ _ H) as (Hg & _).
    rewrite Z2Nat.id in Hg by exact Hn. split; [exact Hg|].
    clear Hg. revert H. generalize 0 as iter. revert pt g.
    induction (Z.to_nat n) as [|count IH]; intros pt g iter H; simpl in H.
    + injection H as <- _. auto.
    + inv_bind H. destruct a as [pt1 g1].
      apply iteration_inv in Hl. destruct Hl as (_ & HK & HT & HD & HP & _).
      apply IH in Hr. destruct Hr as (-> & -> & -> & ->). auto.
Qed.



End Growth.

(** ** A whole session *)

Section Sessions.
Context {L : Libm} {R : RandomSource}.
Local Open Scope Z_scope.
Import ParallelTemperingMCMC.

(* The turns a list of calls [run(n)] makes: a call with [n <= 0] makes
   none. *)
Fixpoint iterations (ns : list Z) : Z :=
  match ns with
  | [] => 0
  | n :: ns' => Z.max 0 n + iterations ns'
  end.

(* A chain as [MCMCChain(...)] leaves it. *)
Definition fresh (c : MCMCChain.t) : Prop :=
  MCMCChain.total c = 0 /\ MCMCChain.accepted c = 0 /\ MCMCChain.samples c = [].

Lemma iterations_nonneg ns : 0 <= iterations ns.
Proof. induction ns; simpl; lia. Qed.

Lemma Forall2_length_eq {A : Type} (Rl : A -> A -> Prop) (l l' : list A) :
  Forall2 Rl l l' -> length l' = length l.
Proof. induction 1; simpl; congruence. Qed.

Lemma grown_temperatures n cs cs' :
  Forall2 (grown n) cs cs' ->
  map MCMCChain.temperature cs' = map MCMCChain.temperature cs.
Proof.
  induction 1 as [|c c' cs cs' H _ IH]; simpl; [reflexivity|].
  destruct H as (_ & _ & -> & _). congruence.
Qed.

Lemma runs_grown fuel ns :
  forall pt g pt' g',
  runs fuel ns pt g = Done (pt', g') ->
  Forall2 (grown (iterations ns)) (chains pt) (chains pt') /\
  0 <= swap_accepted pt' - swap_accepted pt <= swap_total pt' - swap_total pt /\
  (num_chains pt <= 1 ->
   swap_accepted pt' = swap_accepted pt /\ swap_total pt' = swap_total pt) /\
  temperatures pt' = temperatures pt.
Proof.
  induction ns as [|n ns IH]; intros pt g pt' g' H; simpl runs in H.
  - injection H as <- _. simpl.
    split; [apply Forall2_refl_of, grown_refl|]. repeat split; lia.
  - inv_bind H. destruct a as [pt1 g1]. unfold run in Hl.
    assert (HK : num_chains pt1 = num_chains pt /\ temperatures pt1 = temperatures pt).
    { clear Hr IH. revert Hl. generalize 0. revert pt g.
      induction (Z.to_nat n) as [|count IHc]; intros pt g iter H; simpl in H.
      - injection H as <- _. auto.
      - inv_bind H. destruct a as [pt2 g2].
        apply iteration_inv in Hl. destruct Hl as (_ & HK & HT & _).
        apply IHc in Hr. destruct Hr as [-> ->]. auto. }
    destruct HK as [HK HT].
    apply run_loop_grown in Hl. apply IH in Hr.
    destruct Hl as (G1 & A1 & S1), Hr as (G2 & A2 & S2 & T2). rewrite HK in S2.
    split; [|split; [lia|split; [|congruence]]].
    + eapply Forall2_compose; [|exact G1|exact G2].
      intros a b c Hab Hbc. simpl iterations.
      replace (Z.max 0 n) with (Z.of_nat (Z.to_nat n)) by lia.
      eapply grown_trans; eassumption.
    + intros HK1. specialize (S1 HK1). specialize (S2 HK1). lia.
Qed.

Lemma fresh_new d pr T init c :
  theta_ok init -> MCMCChain.new T init d pr = Done c -> fresh c.
Proof.
  unfold fresh. intros _ H. apply new_frame in H.
  destruct H as (_ & _ & _ & _ & -> & -> & ->). auto.
Qed.

Lemma session_inv fuel seed K d p ns g0 pt g :
  session fuel seed K d p ns g0 = Done (pt, g) ->
  exists pt0 g1,
    construct K d p (set_random_seed seed g0) = Done (pt0, g1) /\
    runs fuel ns pt0 g1 = Done (pt, g).
Proof.
  unfold session. intros H. inv_bind H. destruct a as [pt0 g1]. eauto.
Qed.

(** X10: at the end of a session there are [K] chains; the step counter of
    each and the length of its trace are the total number of turns of the
    calls made (a call with [n <= 0] makes none), and its count of acceptances
    is between 0 and that number; with at least one chain [get_samples]
    returns a trace of that length. *)
Theorem trace_length_is_iterations (fuel : nat) (seed K : Z) (d : Data)
    (p : Priors) (ns : list Z) (g0 : rng_state) (pt : t) (g : rng_state) :
  session fuel seed K d p ns g0 = Done (pt, g) ->
  vec_size (chains pt) = K /\
  Forall (fun c => MCMCChain.total c = iterations ns /\
                   vec_size (MCMCChain.samples c) = iterations ns /\
                   0 <= MCMCChain.accepted c <= iterations ns) (chains pt) /\
  (1 <= K -> exists trace,
     get_samples pt = Done trace /\ vec_size trace = iterations ns).
Proof.
  intros H. apply session_inv in H. destruct H as (pt0 & g1 & Hc & Hr).
  pose proof (construct_keeps d p fresh (fresh_new d p) _ _ _ _ Hc) as (_ & _ & Hf).
  apply construct_inv in Hc. destruct Hc as (HK & _ & Hlen & _).
  apply runs_grown in Hr. destruct Hr as (Hg & _).
  pose proof (Forall2_length_eq _ _ _ Hg) as Hlen'.
  assert (Hall : Forall (fun c => MCMCChain.total c = iterations ns /\
                   vec_size (MCMCChain.samples c) = iterations ns /\
                   0 <= MCMCChain.accepted c <= iterations ns) (chains pt)).
  { clear Hlen Hlen'. induction Hg as [|c c' cs cs' Hcc _ IH]; constructor.
    - inversion Hf as [|? ? (Ht & Ha & Hs) _]; subst.
      destruct Hcc as (Ht' & Ha' & _ & new & Hs' & Hn).
      rewrite Hs' , Hs, Ht', Ht. simpl app. repeat split; lia.
    - apply IH. inversion Hf; assumption. }
  split; [unfold vec_size; lia|]. split; [exact Hall|].
  intros HK1. unfold get_samples.
  destruct (vec_at_in_range (chains pt) 0) as [c0 Hc0]; [unfold vec_size; lia|].
  rewrite Hc0. simpl. eexists. split; [reflexivity|].
  exact (proj1 (proj2 (vec_at_Forall _ _ _ _ Hall Hc0))).
Qed.

(* The temperatures the constructor gives the chains. *)
Lemma init_loop_temperatures count :
  forall i temps d p cs g cs' g',
  init_loop count (Z.of_nat i) temps d p cs g = Done (cs', g') ->
  map MCMCChain.temperature cs'
  = map MCMCChain.temperature cs ++ firstn count (skipn i temps).
Proof.
  induction count as [|count IH]; intros i temps d p cs g cs' g' H; simpl in H.
  - injection H as <- _. simpl. symmetry. apply app_nil_r.
  - destruct (uniform_real 0.01 0.5 g) as [f g1].
    destruct (uniform_real 0.1 0.9 g1) as [c g2].
    destruct (uniform_real (-2.0) 2.0 g2) as [e g3].
    destruct (uniform_real 0.1 3.0 g3) as [s g4].
    inv_bind H. rename a into temp. inv_bind Hr. rename a into chain.
    replace (Z.of_nat i + 1) with (Z.of_nat (S i)) in Hrr by lia.
    apply IH in Hrr. rewrite Hrr, map_app. simpl map.
    apply new_frame in Hrl. destruct Hrl as (_ & _ & -> & _).
    apply vec_at_Done in Hl. destruct Hl as [_ Hl]. rewrite Nat2Z.id in Hl.
    rewrite (skipn_cons_nth _ _ _ Hl). simpl firstn. rewrite <- app_assoc.
    reflexivity.
Qed.

(** X11: at the end of a session the ladder is the one the constructor
    built and chain [k] is still at the temperature [temperatures[k]]: swaps
    exchange states, never temperatures. *)
Theorem chains_keep_ladder (fuel : nat) (seed K : Z) (d : Data) (p : Priors)
    (ns : list Z) (g0 : rng_state) (pt : t) (g : rng_state) :
  session fuel seed K d p ns g0 = Done (pt, g) ->
  temperatures pt = geometric_ladder K /\
  map MCMCChain.temperature (chains pt) = temperatures pt.
Proof.
  intros H. apply session_inv in H. destruct H as (pt0 & g1 & Hc & Hr).
  apply runs_grown in Hr. destruct Hr as (Hg & _ & _ & HT).
  apply grown_temperatures in Hg. rewrite Hg, HT. clear Hg HT.
  pose proof (construct_inv _ _ _ _ _ _ Hc) as (_ & Hlad & _).
  split; [exact Hlad|].
  unfold construct in Hc. destruct (K <? 0); [discriminate|].
  inv_bind Hc. rename a into temps. inv_bind Hcr. destruct a as [cs g2].
  injection Hcrr as <- _. simpl in *. subst temps.
  apply (init_loop_temperatures _ 0%nat) in Hcrl. rewrite Hcrl. simpl.
  apply firstn_all2. rewrite length_geometric_ladder. lia.
Qed.

(** X12: at the end of a session [0 <= swap_accepted <= swap_total]; with at
    most one chain no swap is ever attempted, both counters are 0 and
    [get_swap_rate] returns 0. *)
Theorem swap_counters_bounded (fuel : nat) (seed K : Z) (d : Data) (p : Priors)
    (ns : list Z) (g0 : rng_state) (pt : t) (g : rng_state) :
  session fuel seed K d p ns g0 = Done (pt, g) ->
  0 <= swap_accepted pt <= swap_total pt /\
  (K <= 1 ->
   swap_total pt = 0 /\ swap_accepted pt = 0 /\ get_swap_rate pt = 0%float).
Proof.
  intros H. apply session_inv in H. destruct H as (pt0 & g1 & Hc & Hr).
  apply construct_inv in Hc. destruct Hc as (_ & _ & _ & HK & _ & _ & Ha & Ht & _).
  apply runs_grown in Hr. destruct Hr as (_ & Hb & Hs & _).
  split; [lia|]. intros HK1. rewrite HK in Hs. specialize (Hs HK1).
  assert (E : swap_total pt = 0) by lia.
  split; [exact E|]. split; [lia|].
  unfold get_swap_rate. rewrite E. reflexivity.
Qed.

(** X13: when [a] is a multiple of 10, [run(a + b)] is [run(a)] followed by
    [run(b)]: same result, same generator state, same failure if there is
    one. *)
Theorem run_splits_at_multiples_of_ten (fuel : nat) (a b : Z) (pt : t)
    (g : rng_state) :
  0 <= a -> 0 <= b -> a mod 10 = 0 ->
  run fuel (a + b) pt g = ('(p, g') <- run fuel a pt g ;; run fuel b p g').
Proof.
  intros Ha Hb Hm. unfold run. rewrite Z2Nat.inj_add by lia.
  rewrite run_loop_app. rewrite Z2Nat.id by lia.
  destruct (run_loop fuel (Z.to_nat a) 0 pt g) as [[pt1 g1]| | |]; simpl;
    try reflexivity.
  apply (run_loop_shift fuel (Z.to_nat b) 0 a); lia.
Qed.

End Sessions.

(** ** No read out of range *)




Section Safety.
Context {L : Libm} {R : RandomSource}.
Local Open Scope float_scope.
Import ParallelTemperingMCMC.











End Safety.

(** ** The diagnostics at their edges, and the effective sample size *)

Section MoreDiagnostics.
Context {L : Libm} {R : RandomSource}.
Local Open Scope float_scope.
Import ParallelTemperingMCMC.

(** *** The effective sample size, on lists *)

(* The sum of [(x_i - mu) (x_(i - lag) - mu)] over [i] from [lag] on. *)
Definition lagged_products (x : list float) (mu : float) (lag : nat) : float :=
  fold_left (fun s ab => s + (fst ab - mu) * (snd ab - mu))
            (combine (skipn lag x) x) 0.

(* The autocorrelations at the lags [lag], [lag + 1], ..., at most [count] of
   them, up to and including the first negative one. *)
Fixpoint autocorrelations (x : list float) (mu var : float) (count lag : nat)
    : list float :=
  match count with
  | O => []
  | S count' =>
      let rho := lagged_products x mu lag
                 / (double_of_Z (vec_size x - Z.of_nat lag) * var) in
      rho :: (if rho <? 0 then [] else autocorrelations x mu var count' (S lag))
  end.

Definition ess (x : list float) : float :=
  let n := vec_size x in
  let mu := mean x in
  let var := sum_sq_dev x mu / double_of_Z (n - 1) in
  let rho := autocorrelations x mu var (Z.to_nat (Z.min 100 (n / 2) - 1)) 1 in
  double_of_Z n / (1 + 2 * accumulate rho).

Lemma lag_sum_spec x mu lag count :
  forall k sum,
  (lag + k + count = length x)%nat ->
  lag_sum count (Z.of_nat (lag + k)) (Z.of_nat lag) x mu sum
  = Done (fold_left (fun s ab => s + (fst ab - mu) * (snd ab - mu))
            (combine (skipn (lag + k) x) (skipn k x)) sum).
Proof.
  induction count as [|count IH]; intros k sum Hlen.
  - rewrite skipn_all2 by lia. reflexivity.
  - destruct (nth_error x (lag + k)) as [a|] eqn:Ea;
      [|apply nth_error_None in Ea; lia].
    destruct (nth_error x k) as [b|] eqn:Eb;
      [|apply nth_error_None in Eb; lia].
    cbn [lag_sum].
    assert (Ha : vec_at x (Z.of_nat (lag + k)) = Done a).
    { apply vec_at_Done. rewrite Nat2Z.id. split; [lia | exact Ea]. }
    assert (Hb : vec_at x (Z.of_nat (lag + k) - Z.of_nat lag) = Done b).
    { apply vec_at_Done. replace (Z.of_nat (lag + k) - Z.of_nat lag)%Z
        with (Z.of_nat k) by lia. rewrite Nat2Z.id. split; [lia | exact Eb]. }
    rewrite Ha, Hb. cbn [bind].
    replace (Z.of_nat (lag + k) + 1)%Z with (Z.of_nat (lag + S k)) by lia.
    rewrite IH by lia.
    rewrite (skipn_cons_nth _ _ _ Ea), (skipn_cons_nth _ _ _ Eb).
    replace (S (lag + k)) with (lag + S k)%nat by lia. reflexivity.
Qed.

Lemma acf_loop_spec x mu var count :
  forall lag acf,
  (vec_size x < 2 ^ 32)%Z -> (lag + count <= length x)%nat ->
  acf_loop count (Z.of_nat lag) x mu var acf
  = Done (acf ++ autocorrelations x mu var count lag).
Proof.
  induction count as [|count IH]; intros lag acf Hsize Hlen.
  - simpl. rewrite app_nil_r. reflexivity.
  - cbn [acf_loop autocorrelations].
    replace (Z.to_nat (vec_size x - Z.of_nat lag)) with (length x - lag)%nat
      by (unfold vec_size; lia).
    pose proof (lag_sum_spec x mu lag (length x - lag) 0 0 ltac:(lia)) as Hs.
    rewrite Nat.add_0_r in Hs. rewrite Hs. cbn [bind]. cbn [skipn].
    fold (lagged_products x mu lag).
    rewrite (to_size_t_small (Z.of_nat lag)) by (unfold vec_size in *; lia).
    rewrite to_size_t_small by (unfold vec_size in *; lia).
    destruct (lagged_products x mu lag
              / (double_of_Z (vec_size x - Z.of_nat lag) * var) <? 0).
    + reflexivity.
    + replace (Z.of_nat lag + 1)%Z with (Z.of_nat (S lag)) by lia.
      rewrite IH by (try assumption; lia). rewrite <- app_assoc. reflexivity.
Qed.

Lemma compute_ess_param_spec x :
  (2 <= vec_size x < 2 ^ 31)%Z -> compute_ess_param x = Done (ess x).
Proof.
  intros Hx. unfold compute_ess_param, ess, mean, sum_sq_dev.
  rewrite to_size_t_small by lia. rewrite to_int32_small by lia.
  rewrite Z.quot_div_nonneg by lia.
  set (count := Z.to_nat (Z.min 100 (vec_size x / 2) - 1)).
  change 1%Z with (Z.of_nat 1).
  rewrite acf_loop_spec.
  - reflexivity.
  - lia.
  - unfold count, vec_size in *.
    assert (Z.of_nat (length x) / 2 <= Z.of_nat (length x) - 1)%Z
      by (Z.div_mod_to_equations; lia).
    lia.
Qed.

(** X15: with at least 100 samples after a non-negative warm-up,
    [compute_ess] reads nothing out of range and returns, per parameter in the
    order floor, ceiling, EC50, slope, [n / (1 + 2 * sum of rho)], where the
    [rho] are the autocorrelations at the lags 1, 2, ..., [min(100, n/2) - 1]
    up to and including the first negative one, each the sum of the lagged
    products divided by [(n - lag) * var], [var] the sample variance. *)
Theorem compute_ess_autocorrelation (warmup : Z) (pt : t) (c0 : MCMCChain.t)
    (rest : list MCMCChain.t) :
  chains pt = c0 :: rest ->
  (0 <= warmup)%Z ->
  (vec_size (MCMCChain.samples c0) < 2 ^ 31)%Z ->
  (100 <= vec_size (post_warmup warmup (MCMCChain.samples c0)))%Z ->
  compute_ess warmup pt =
  Done (per_parameter ess (post_warmup warmup (MCMCChain.samples c0))).
Proof.
  intros Hc Hw Hsize Hn. unfold compute_ess. rewrite Hc.
  change (vec_at (c0 :: rest) 0) with (Done c0). cbn [bind].
  set (samples := MCMCChain.samples c0) in *.
  set (x := post_warmup warmup samples) in *.
  assert (Hx : vec_size x = (vec_size samples - warmup)%Z).
  { unfold x, post_warmup, vec_size in *. rewrite length_skipn in *. lia. }
  cbv zeta. rewrite post_warmup_count by (unfold vec_size in *; lia).
  rewrite <- Hx.
  destruct (Z.ltb_spec (vec_size x) 100); [lia|].
  rewrite to_size_t_small by (unfold vec_size in *; lia).
  replace warmup with (Z.of_nat (Z.to_nat warmup)) at 2 by lia.
  rewrite gather_spec by (unfold vec_size in *; lia). cbn [bind].
  rewrite firstn_all2 by (rewrite length_skipn; unfold vec_size in *; lia).
  fold (post_warmup warmup samples). fold x.
  unfold append_columns, no_columns. simpl.
  assert (Hm : forall f : Params -> float, (2 <= vec_size (map f x) < 2 ^ 31)%Z).
  { intros f. unfold vec_size in *. rewrite length_map. lia. }
  rewrite !compute_ess_param_spec by apply Hm. reflexivity.
Qed.

(** *** A negative warm-up *)

Lemma compute_ess_param_nil : compute_ess_param [] = Done 0.
Proof. reflexivity. Qed.

(** X16: a negative warm-up that leaves [n >= 100] passes the guard of both
    diagnostics: [compute_rhat] then reads [samples[warmup]] at a negative
    index, and [compute_ess], whose loop compares the index as a [size_t],
    gathers nothing and returns [0, 0, 0, 0]. *)
Theorem negative_warmup_past_the_guard (warmup : Z) (pt : t) (c0 : MCMCChain.t)
    (rest : list MCMCChain.t) :
  chains pt = c0 :: rest ->
  (warmup < 0)%Z ->
  (100 <= vec_size (MCMCChain.samples c0) - warmup < 2 ^ 31)%Z ->
  compute_rhat warmup pt = Undefined /\
  compute_ess warmup pt = Done [0; 0; 0; 0].
Proof.
  intros Hc Hw Hn. unfold compute_rhat, compute_ess. rewrite Hc.
  change (vec_at (c0 :: rest) 0) with (Done c0). cbn [bind]. cbv zeta.
  rewrite post_warmup_count by (unfold vec_size in *; lia).
  set (n := (vec_size (MCMCChain.samples c0) - warmup)%Z) in *.
  destruct (Z.ltb_spec n 100); [lia|]. split.
  - rewrite Z.quot_div_nonneg by lia.
    replace (warmup + n / 2 - warmup)%Z with (n / 2)%Z by lia.
    destruct (Z.to_nat (n / 2)) as [|count] eqn:E;
      [assert (50 <= n / 2)%Z by (Z.div_mod_to_equations; lia); lia|].
    cbn [gather]. unfold vec_at.
    destruct (Z.ltb_spec warmup 0); [reflexivity | lia].
  - assert (Es : to_size_t warmup = (warmup + 2 ^ 32)%Z).
    { unfold to_size_t. symmetry. apply Z.mod_unique with (-1)%Z;
        unfold n, vec_size in *; lia. }
    rewrite Es.
    replace (Z.to_nat (vec_size (MCMCChain.samples c0) - (warmup + 2 ^ 32)))
      with 0%nat by (unfold n, vec_size in *; lia).
    cbn [gather bind no_columns col_floor col_ceiling col_ec50 col_slope].
    rewrite compute_ess_param_nil. reflexivity.
Qed.

(** *** An ensemble without chains *)

Lemma run_loop_no_chains fuel count :
  forall iter ts d p sa st g,
  run_loop fuel count iter (mk [] ts d p 0 sa st) g = Done (mk [] ts d p 0 sa st, g).
Proof.
  induction count as [|count IH]; intros; simpl; [reflexivity|].
  unfold iteration. simpl. rewrite andb_false_r. apply IH.
Qed.

(** X17: the constructor accepts [K = 0] without drawing anything; on the
    ensemble it builds [get_samples], [compute_rhat] and [compute_ess] read
    [chains[0]] out of range, [get_acceptance_rates] is empty,
    [get_swap_rate] is 0 and [run] changes nothing. *)
Theorem empty_ensemble_has_no_cold_chain (d : Data) (p : Priors) (g : rng_state) :
  let pt := mk [] [] d p 0 0 0 in
  construct 0 d p g = Done (pt, g) /\
  get_samples pt = Undefined /\
  (forall warmup,
     compute_rhat warmup pt = Undefined /\ compute_ess warmup pt = Undefined) /\
  get_acceptance_rates pt = [] /\
  get_swap_rate pt = 0 /\
  forall fuel n h, run fuel n pt h = Done (pt, h).
Proof.
  cbv zeta. split; [reflexivity|]. split; [reflexivity|].
  split; [intros; split; reflexivity|]. split; [reflexivity|].
  split; [reflexivity|]. intros. apply run_loop_no_chains.
Qed.

End MoreDiagnostics.

(** ** Priors and data the constructor lets through *)

Section Unchecked.
Context {L : Libm} {R : RandomSource}.
Local Open Scope float_scope.
Import ParallelTemperingMCMC IEEEOrder.

Lemma log_normal_pdf_zero_sd x m s :
  (s =? 0) = true -> is_finite (log_normal_pdf x m s) = false.
Proof.
  intros Hs. destruct (is_finite (log_normal_pdf x m s)) eqn:H; [|reflexivity].
  unfold log_normal_pdf in H.
  apply sub_finite_inv in H. destruct H as [H _].
  apply sub_finite_inv in H. destruct H as [H _].
  apply mul_finite_inv in H. destruct H as [_ H].
  rewrite (div_zero_not_finite _ _ Hs) in H. discriminate.
Qed.

Lemma log_truncated_normal_pdf_zero_sd x m s :
  (s =? 0) = true -> is_finite (log_truncated_normal_pdf x m s) = false.
Proof.
  intros Hs.
  destruct (is_finite (log_truncated_normal_pdf x m s)) eqn:H; [|reflexivity].
  unfold log_truncated_normal_pdf in H. destruct (x <=? 0).
  - rewrite not_finite_neg_infinity in H. discriminate.
  - apply sub_finite_inv in H. destruct H as [H _].
    apply sub_finite_inv in H. destruct H as [H _].
    apply sub_finite_inv in H. destruct H as [H _].
    apply mul_finite_inv in H. destruct H as [_ H].
    rewrite (div_zero_not_finite _ _ Hs) in H. discriminate.
Qed.

Lemma log_prior_zero_sd p priors :
  (ec50_sd priors =? 0) = true \/ (slope_sd priors =? 0) = true ->
  is_finite (log_prior p priors) = false.
Proof.
  intros Hs. destruct (is_finite (log_prior p priors)) eqn:H; [|reflexivity].
  unfold log_prior in H.
  apply add_finite_inv in H. destruct H as [H Ht].
  apply add_finite_inv in H. destruct H as [H He].
  destruct Hs as [Hs|Hs].
  - rewrite (log_normal_pdf_zero_sd _ _ _ Hs) in He. discriminate.
  - rewrite (log_truncated_normal_pdf_zero_sd _ _ _ Hs) in Ht. discriminate.
Qed.

(** X18: with [ec50_sd] or [slope_sd] equal to zero, which the constructor
    accepts, the log-prior of no parameter vector is finite; the tempered
    log-posterior is minus infinity everywhere, whatever the data and the
    temperature; and every step rejects its proposal. *)
Theorem zero_sd_freezes_the_chains (priors : Priors) :
  (ec50_sd priors =? 0) = true \/ (slope_sd priors =? 0) = true ->
  (forall p, is_finite (log_prior p priors) = false) /\
  (forall p d T, log_posterior_tempered p d priors T = Done neg_infinity) /\
  (forall fuel d c g c' g',
     MCMCChain.step fuel d priors c g = Done (c', g') ->
     MCMCChain.current c' = MCMCChain.current c /\
     MCMCChain.accepted c' = MCMCChain.accepted c /\
     MCMCChain.current_log_posterior c' = MCMCChain.current_log_posterior c).
Proof.
  intros Hs.
  assert (Hlp : forall p d T, log_posterior_tempered p d priors T = Done neg_infinity).
  { intros p d T. unfold log_posterior_tempered.
    rewrite (log_prior_zero_sd p priors Hs). reflexivity. }
  split; [intros p; apply log_prior_zero_sd; exact Hs|]. split; [exact Hlp|].
  intros fuel d c g c' g' H. pose proof H as H'. apply step_inv in H'.
  destruct H' as (proposed & pd & g1 & plp & Hp & _).
  destruct (step_rejects_neg_infinity _ _ _ _ _ _ _ _ _ _ Hp (Hlp _ _ _) H)
    as (H1 & H2 & H3). auto.
Qed.

(** *** [Data(t, i)] *)

Lemma vec_at_end {A : Type} (v : list A) : vec_at v (vec_size v) = @Undefined A.
Proof.
  unfold vec_at, vec_size. destruct (Z.ltb_spec (Z.of_nat (length v)) 0); [reflexivity|].
  rewrite Nat2Z.id.
  destruct (nth_error v (length v)) eqn:E; [|reflexivity].
  assert (H' : nth_error v (length v) <> None) by congruence.
  apply nth_error_Some in H'. lia.
Qed.

(* The loop runs out of infection flags before it runs out of turns: it reads
   past the end of [infected], unless a partial sum has left the finite
   numbers before. *)
Lemma log_likelihood_loop_past p :
  forall ys ts pre_t pre_y count ll n,
  length pre_t = length pre_y ->
  (length ys < length ts)%nat -> (length ys < count)%nat ->
  log_likelihood_loop p (mkData (pre_t ++ ts) (pre_y ++ ys) n) count
    (vec_size pre_t) ll
  = if forallb is_finite
         (partial_sums ll
            (map (fun ty => log_bernoulli_pmf (snd ty) (prob_infection p (fst ty)))
                 (combine ts ys)))
    then Undefined else Done neg_infinity.
Proof.
  induction ys as [|y ys IH]; intros ts pre_t pre_y count ll n Hlen Ht Hc;
    (destruct ts as [|t ts]; [simpl in Ht; lia|]);
    (destruct count as [|count]; [lia|]);
    cbn [log_likelihood_loop titre infected];
    rewrite (vec_at_app_here pre_t t ts); cbn [bind];
    replace (vec_size pre_t) with (vec_size pre_y) at 1
      by (unfold vec_size; congruence).
  - rewrite app_nil_r, vec_at_end. reflexivity.
  - rewrite (vec_at_app_here pre_y y ys). cbn [bind].
    cbn [combine map partial_sums forallb fst snd].
    destruct (is_finite (ll + log_bernoulli_pmf y (prob_infection p t)));
      cbn [negb andb]; [|reflexivity].
    specialize (IH ts (pre_t ++ [t]) (pre_y ++ [y]) count
                  (ll + log_bernoulli_pmf y (prob_infection p t)) n).
    rewrite <- !app_assoc in IH. simpl app in IH.
    replace (vec_size pre_t + 1)%Z with (vec_size (pre_t ++ [t]))
      by (unfold vec_size; rewrite length_app; simpl; lia).
    apply IH.
    + rewrite !length_app. simpl. lia.
    + simpl in Ht. lia.
    + simpl in Hc. lia.
Qed.

(** X19: [Data(t, i)] takes [N] from [t] alone.  With at least as many
    infection flags as titres the dataset is within bounds and the
    log-likelihood sums over all the pairs; with fewer it is not, and the
    log-likelihood reads past the end of [infected], unless a partial sum over
    the pairs that exist is not finite, in which case it returns minus
    infinity before. *)
Theorem data_constructor_trusts_lengths (t : list float) (i : list Z) (p : Params) :
  (vec_size t < 2 ^ 31)%Z ->
  let terms :=
    map (fun ty => log_bernoulli_pmf (snd ty) (prob_infection p (fst ty)))
        (combine t i) in
  N (Data_of t i) = vec_size t /\
  ((length t <= length i)%nat ->
   data_in_bounds (Data_of t i) /\
   log_likelihood p (Data_of t i) = Done (sum_or_neg_infinity 0 terms)) /\
  ((length i < length t)%nat ->
   ~ data_in_bounds (Data_of t i) /\
   log_likelihood p (Data_of t i)
   = if forallb is_finite (partial_sums 0 terms) then Undefined
     else Done neg_infinity).
Proof.
  intros Hsize terms.
  assert (HN : N (Data_of t i) = vec_size t).
  { unfold Data_of. simpl. apply to_int32_small. unfold vec_size in *. lia. }
  split; [exact HN|]. split.
  - intros Hlen.
    assert (Hd : data_in_bounds (Data_of t i)).
    { unfold data_in_bounds. rewrite HN. unfold Data_of, vec_size. simpl. lia. }
    split; [exact Hd|]. rewrite (log_likelihood_spec p _ Hd).
    unfold bernoulli_terms, terms. rewrite HN. unfold Data_of. simpl.
    rewrite firstn_all2; [reflexivity|].
    rewrite length_combine. unfold vec_size. lia.
  - intros Hlen. split.
    + unfold data_in_bounds. rewrite HN. unfold Data_of, vec_size. simpl. lia.
    + unfold log_likelihood. rewrite HN.
      apply (log_likelihood_loop_past p i t [] [] (Z.to_nat (vec_size t)) 0);
        [reflexivity | exact Hlen | unfold vec_size; lia].
Qed.

(** *** Before the first call of [run] *)

Lemma fresh_rate c : fresh c -> MCMCChain.get_acceptance_rate c = 0.
Proof.
  intros (Ht & _). unfold MCMCChain.get_acceptance_rate. rewrite Ht. reflexivity.
Qed.

(** X20: right after construction every chain has empty counters and an
    empty trace; [get_acceptance_rates] returns [K] zeros and
    [get_swap_rate] zero (the divisions by zero are guarded), and with at
    least one chain [get_samples] returns the empty trace. *)
Theorem fresh_ensemble_reports_zeros (K : Z) (d : Data) (p : Priors)
    (g : rng_state) (pt : t) (g' : rng_state) :
  construct K d p g = Done (pt, g') ->
  Forall fresh (chains pt) /\
  get_acceptance_rates pt = repeat 0 (Z.to_nat K) /\
  get_swap_rate pt = 0 /\
  ((1 <= K)%Z -> get_samples pt = Done []).
Proof.
  intros Hc.
  pose proof (construct_keeps d p fresh (fresh_new d p) _ _ _ _ Hc) as (_ & _ & Hf).
  apply construct_inv in Hc. destruct Hc as (HK & _ & Hlen & _ & _ & _ & _ & Ht & _).
  split; [exact Hf|]. split; [|split].
  - unfold get_acceptance_rates. rewrite <- Hlen. clear Hlen.
    induction Hf as [|c cs Hc _ IH]; simpl; [reflexivity|].
    rewrite (fresh_rate c Hc), IH. reflexivity.
  - unfold get_swap_rate. rewrite Ht. reflexivity.
  - intros HK1. unfold get_samples.
    destruct (vec_at_in_range (chains pt) 0) as [c0 Hc0]; [unfold vec_size; lia|].
    rewrite Hc0. cbn [bind].
    destruct (vec_at_Forall _ _ _ _ Hf Hc0) as (_ & _ & ->). reflexivity.
Qed.

End Unchecked.

(** ** Data the likelihood does not question *)

Section UncheckedData.
Context {L : Libm}.
Local Open Scope float_scope.

(* An infection flag as the likelihood reads it. *)
Definition as_flag (y : Z) : Z := if (y =? 1)%Z then 1%Z else 0%Z.

Lemma vec_at_map {A B : Type} (f : A -> B) (v : list A) (i : Z) :
  vec_at (map f v) i = (a <- vec_at v i ;; Done (f a)).
Proof.
  unfold vec_at. destruct (i <? 0)%Z; [reflexivity|].
  rewrite nth_error_map. destruct (nth_error v (Z.to_nat i)); reflexivity.
Qed.

Lemma log_bernoulli_pmf_as_flag y q :
  log_bernoulli_pmf (as_flag y) q = log_bernoulli_pmf y q.
Proof.
  unfold log_bernoulli_pmf, as_flag. destruct (y =? 1)%Z; reflexivity.
Qed.

Lemma log_likelihood_loop_as_flag p t ys n count :
  forall i ll,
  log_likelihood_loop p (mkData t (map as_flag ys) n) count i ll
  = log_likelihood_loop p (mkData t ys n) count i ll.
Proof.
  induction count as [|count IH]; intros i ll; cbn [log_likelihood_loop];
    [reflexivity|].
  cbn [titre infected]. destruct (vec_at t i) as [x| | |]; cbn [bind];
    try reflexivity.
  rewrite vec_at_map. destruct (vec_at ys i) as [y| | |]; cbn [bind];
    try reflexivity.
  rewrite log_bernoulli_pmf_as_flag.
  destruct (negb (is_finite (ll + log_bernoulli_pmf y (prob_infection p x))));
    [reflexivity | apply IH].
Qed.

(** X21: the likelihood reads an infection flag through [y == 1] only: every
    flag other than 1 (2, -1, ...) counts as 0, "not infected".  Replacing
    each flag by 1 or 0 accordingly changes neither the log-likelihood nor
    the tempered log-posterior, failures included. *)
Theorem flags_other_than_one_count_as_zero (p : Params) (t : list float)
    (ys : list Z) (n : Z) (priors : Priors) (T : float) :
  log_likelihood p (mkData t (map as_flag ys) n)
    = log_likelihood p (mkData t ys n) /\
  log_posterior_tempered p (mkData t (map as_flag ys) n) priors T
    = log_posterior_tempered p (mkData t ys n) priors T.
Proof.
  assert (H : log_likelihood p (mkData t (map as_flag ys) n)
              = log_likelihood p (mkData t ys n))
    by apply log_likelihood_loop_as_flag.
  split; [exact H|]. unfold log_posterior_tempered. rewrite H. reflexivity.
Qed.

Lemma add_zero_quotient x T :
  is_finite x = true -> (T =? 0) = false -> is_nan T = false ->
  (x + 0 / T =? x) = true.
Proof.
  rewrite is_finite_spec, is_nan_spec, !eqb_spec, add_spec, div_spec.
  change (Prim2SF 0) with (S754_zero false). unfold SFeqb.
  destruct (Prim2SF T) as [st|st| |st mt et]; simpl; try discriminate; intros Hx _ _;
    destruct (Prim2SF x) as [sx|sx| |sx mx ex]; simpl in *; try discriminate;
    try (destruct sx, st; reflexivity);
    rewrite Z.compare_refl, Pos.compare_cont_refl; destruct sx; reflexivity.
Qed.

(** X22: on a dataset with [N <= 0], which the constructor accepts, the
    log-likelihood is 0 and reads no observation, and the tempered
    log-posterior is the log-prior plus [0 / T], or minus infinity when the
    log-prior is not finite; at every temperature other than zero and NaN
    this equals the log-prior: the sampler then samples the prior on every
    rung of the ladder. *)
Theorem empty_dataset_leaves_the_prior (p : Params) (d : Data) (priors : Priors)
    (T : float) :
  (N d <= 0)%Z ->
  log_likelihood p d = Done 0 /\
  log_posterior_tempered p d priors T
    = Done (if is_finite (log_prior p priors) then log_prior p priors + 0 / T
            else neg_infinity) /\
  (is_finite (log_prior p priors) = true -> (T =? 0) = false ->
   is_nan T = false ->
   (log_prior p priors + 0 / T =? log_prior p priors) = true).
Proof.
  intros HN.
  assert (H : log_likelihood p d = Done 0).
  { unfold log_likelihood. replace (Z.to_nat (N d)) with 0%nat by lia.
    reflexivity. }
  split; [exact H|]. split.
  - unfold log_posterior_tempered. rewrite H.
    destruct (is_finite (log_prior p priors)); reflexivity.
  - apply add_zero_quotient.
Qed.

End UncheckedData.

(** ** The further properties on the bench *)

Module Trials.
Local Open Scope float_scope.
Import ParallelTemperingMCMC Bench.

#[local] Existing Instance linear_libm.
#[local] Existing Instance scripted.

(* A session of two calls, long enough for the proposers to adapt once. *)
Definition long_session : t * @rng_state scripted :=
  from_done (session 5 42 2 two_points default_Priors [50; 5]%Z bench_script)
            (no_ensemble, bench_script).

Lemma long_session_runs :
  session 5 42 2 two_points default_Priors [50; 5]%Z bench_script
  = Done (fst long_session, snd long_session).
Proof. vm_compute. reflexivity. Qed.

(* A session of a single chain. *)
Definition single_session : t * @rng_state scripted :=
  from_done (session 5 42 1 two_points default_Priors [3]%Z bench_script)
            (no_ensemble, bench_script).

Lemma single_session_runs :
  session 5 42 1 two_points default_Priors [3]%Z bench_script
  = Done (fst single_session, snd single_session).
Proof. vm_compute. reflexivity. Qed.

Lemma bench_start_built :
  construct 2 two_points default_Priors bench_script
  = Done (fst bench_start, snd bench_start).
Proof. vm_compute. reflexivity. Qed.

Lemma bench_first_call_runs :
  run 5 5 (fst bench_start) (snd bench_start)
  = Done (fst bench_first_call, snd bench_first_call).
Proof. vm_compute. reflexivity. Qed.





(** X1 on the bench: iteration 7 leaves the proposer alone; iteration 50
    brings the step sizes NaN, 5, 0 and 0.5 within the bounds. *)
Lemma adapt_clamps_witness :
  ProposalDistribution.adapt 7 0.5 ProposalDistribution.new
    = ProposalDistribution.new /\
  Forall step_size_ok
    (ProposalDistribution.step_sizes
       (ProposalDistribution.adapt 50 0.5
          (ProposalDistribution.mk [nan; 5; 0; 0.5] normal_fresh))) /\
  ProposalDistribution.step_sizes
    (ProposalDistribution.adapt 50 0.5
       (ProposalDistribution.mk [nan; 5; 0; 0.5] normal_fresh))
  = [0.001; 1; 0.001; 0.5 * 1.01].
Proof.
  split; [|split].
  - apply (proj1 (adapt_clamps 7 0.5 ProposalDistribution.new)).
    vm_compute. discriminate.
  - apply (proj2 (adapt_clamps 50 0.5
                    (ProposalDistribution.mk [nan; 5; 0; 0.5] normal_fresh))).
    reflexivity.
  - vm_compute. reflexivity.
Defined.

(** X3 on the bench: 0.25 is returned without fuel, -0.25 is reflected once.
    *)
Lemma reflect_unit_near_witness :
  ProposalDistribution.reflect_unit 0 0.25 = Done 0.25 /\
  ProposalDistribution.reflect_unit 1 (-0.25) = Done (- -0.25).
Proof.
  split.
  - apply (proj1 (reflect_unit_near 0 0.25)); reflexivity.
  - apply (proj2 (reflect_unit_near 0 (-0.25))); reflexivity.
Defined.


(** X5 on the bench: two chains after 55 turns, one adaptation each. *)
Lemma step_sizes_stay_bounded_witness :
  Forall proposal_ok (chains (fst long_session)) /\
  map (fun c => ProposalDistribution.step_sizes (MCMCChain.proposal c))
      (chains (fst long_session))
  = repeat (repeat (0.1 * 1.01) 4) 2.
Proof.
  split; [|vm_compute; reflexivity].
  exact (step_sizes_stay_bounded _ _ _ _ _ _ _ _ _ long_session_runs).
Defined.

(** X6 on the bench: the 55 states of the cold chain's trace. *)
Lemma stored_samples_in_domain_witness :
  Forall trace_ok (chains (fst long_session)) /\
  exists trace,
    get_samples (fst long_session) = Done trace /\ Forall theta_ok trace /\
    length trace = 55%nat.
Proof.
  destruct (stored_samples_in_domain _ _ _ _ _ _ _ _ _ long_session_runs)
    as [Hall Hcold].
  split; [exact Hall|].
  exists (from_done (get_samples (fst long_session)) []).
  assert (E : get_samples (fst long_session)
              = Done (from_done (get_samples (fst long_session)) []))
    by (vm_compute; reflexivity).
  split; [exact E|]. split; [exact (Hcold _ E) | vm_compute; reflexivity].
Defined.

(** X7 on the bench: the two chains after 55 turns and six swap attempts. *)
Lemma cached_log_posterior_is_current_witness :
  Forall (cache_ok two_points default_Priors) (chains (fst long_session)).
Proof.
  exact (cached_log_posterior_is_current _ _ _ _ _ _ _ _ _ long_session_runs).
Defined.

(** X8 on the bench: the first call [run(5)] on two chains. *)
Lemma run_appends_witness :
  Forall2 (grown 5) (chains (fst bench_start)) (chains (fst bench_first_call)) /\
  temperatures (fst bench_first_call) = temperatures (fst bench_start).
Proof.
  destruct (proj2 (run_appends 5 5 _ _ _ _ bench_first_call_runs) ltac:(lia))
    as (Hg & Ht & _).
  split; assumption.
Defined.

(** X10 on the bench: [run(50); run(5)] leaves a trace of 55 states. *)
Lemma trace_length_is_iterations_witness :
  iterations [50; 5]%Z = 55%Z /\
  exists trace,
    get_samples (fst long_session) = Done trace /\ vec_size trace = 55%Z.
Proof.
  split; [reflexivity|].
  destruct (trace_length_is_iterations _ _ _ _ _ _ _ _ _ long_session_runs)
    as (_ & _ & H).
  exact (H ltac:(lia)).
Defined.

(** X11 on the bench: two chains after 55 turns. *)
Lemma chains_keep_ladder_witness :
  temperatures (fst long_session) = geometric_ladder 2 /\
  map MCMCChain.temperature (chains (fst long_session))
  = temperatures (fst long_session).
Proof.
  exact (chains_keep_ladder _ _ _ _ _ _ _ _ _ long_session_runs).
Defined.

(** X12 on the bench: six attempts in [run(50); run(5)] on two chains, none on
    a single chain. *)
Lemma swap_counters_bounded_witness :
  (0 <= swap_accepted (fst long_session) <= swap_total (fst long_session))%Z /\
  swap_total (fst long_session) = 6%Z /\
  swap_total (fst single_session) = 0%Z /\
  get_swap_rate (fst single_session) = 0.
Proof.
  destruct (swap_counters_bounded _ _ _ _ _ _ _ _ _ long_session_runs) as [H _].
  destruct (swap_counters_bounded _ _ _ _ _ _ _ _ _ single_session_runs)
    as [_ H1].
  destruct (H1 ltac:(lia)) as (Ht & _ & Hr).
  split; [exact H|]. split; [reflexivity|]. split; assumption.
Defined.

(** X13 on the bench: [run(15)] is [run(10); run(5)]. *)
Lemma run_splits_at_multiples_of_ten_witness :
  run 5 (10 + 5) (fst bench_start) (snd bench_start)
  = ('(p, g') <- run 5 10 (fst bench_start) (snd bench_start) ;; run 5 5 p g').
Proof.
  apply run_splits_at_multiples_of_ten; [lia | lia | reflexivity].
Defined.


(** X15 on the bench: the trace of 101 samples. *)
Lemma compute_ess_autocorrelation_witness :
  (100 <= vec_size (post_warmup 0 bench_trace))%Z /\
  compute_ess 0 bench_ensemble
  = Done (per_parameter ess (post_warmup 0 bench_trace)).
Proof.
  assert (Hn : (100 <= vec_size (post_warmup 0 bench_trace))%Z)
    by (vm_compute; discriminate).
  split; [exact Hn|].
  apply (compute_ess_autocorrelation 0 bench_ensemble bench_chain []);
    [reflexivity | lia | vm_compute; reflexivity | exact Hn].
Defined.

(** X16 on the bench: the trace of 101 samples with a warm-up of -1. *)
Lemma negative_warmup_past_the_guard_witness :
  compute_rhat (-1) bench_ensemble = Undefined /\
  compute_ess (-1) bench_ensemble = Done [0; 0; 0; 0].
Proof.
  apply (negative_warmup_past_the_guard (-1) bench_ensemble bench_chain []);
    [reflexivity | lia | split; vm_compute; [discriminate | reflexivity]].
Defined.

(** X18 on the bench: the priors whose [ec50_sd] is 0. *)
Lemma zero_sd_freezes_the_chains_witness :
  (ec50_sd bad_Priors =? 0) = true /\
  log_posterior_tempered (mkParams 0.3 0.4 0.5 1.5) two_points bad_Priors 2
  = Done neg_infinity.
Proof.
  assert (H0 : (ec50_sd bad_Priors =? 0) = true) by reflexivity.
  split; [exact H0|].
  destruct (zero_sd_freezes_the_chains bad_Priors (or_introl H0)) as (_ & H & _).
  apply H.
Defined.

(** X19 on the bench: two titres with two infection flags, and with one. *)
Lemma data_constructor_trusts_lengths_witness :
  (data_in_bounds (Data_of [-5; 5] [1; 0]%Z)) /\
  (~ data_in_bounds (Data_of [-5; 5] [1]%Z)) /\
  log_likelihood (mkParams 0.3 0.4 0.5 1.5) (Data_of [-5; 5] [1]%Z)
  = (if forallb is_finite
          (partial_sums 0
             (map (fun ty => log_bernoulli_pmf (snd ty)
                               (prob_infection (mkParams 0.3 0.4 0.5 1.5) (fst ty)))
                  (combine [-5; 5] [1]%Z)))
     then Undefined else Done neg_infinity).
Proof.
  destruct (data_constructor_trusts_lengths [-5; 5] [1; 0]%Z
              (mkParams 0.3 0.4 0.5 1.5) ltac:(vm_compute; reflexivity))
    as (_ & H1 & _).
  destruct (data_constructor_trusts_lengths [-5; 5] [1]%Z
              (mkParams 0.3 0.4 0.5 1.5) ltac:(vm_compute; reflexivity))
    as (_ & _ & H2).
  destruct (H1 ltac:(simpl; lia)) as [Hd _].
  destruct (H2 ltac:(simpl; lia)) as [Hn Hu].
  split; [exact Hd|]. split; [exact Hn|exact Hu].
Defined.

(** X20 on the bench: the two chains the constructor left. *)
Lemma fresh_ensemble_reports_zeros_witness :
  Forall fresh (chains (fst bench_start)) /\
  get_acceptance_rates (fst bench_start) = [0; 0] /\
  get_samples (fst bench_start) = Done [].
Proof.
  destruct (fresh_ensemble_reports_zeros _ _ _ _ _ _ bench_start_built)
    as (Hf & Hr & _ & Hs).
  split; [exact Hf|]. split; [exact Hr | exact (Hs ltac:(lia))].
Defined.


(** X22 on the bench: the empty dataset at temperature 2. *)
Lemma empty_dataset_leaves_the_prior_witness :
  is_finite (log_prior (mkParams 0.3 0.4 0.5 1.5) default_Priors) = true /\
  log_posterior_tempered (mkParams 0.3 0.4 0.5 1.5) empty_Data default_Priors 2
  = Done (log_prior (mkParams 0.3 0.4 0.5 1.5) default_Priors + 0 / 2) /\
  (log_prior (mkParams 0.3 0.4 0.5 1.5) default_Priors + 0 / 2
   =? log_prior (mkParams 0.3 0.4 0.5 1.5) default_Priors) = true.
Proof.
  assert (Hf : is_finite (log_prior (mkParams 0.3 0.4 0.5 1.5) default_Priors)
               = true) by (vm_compute; reflexivity).
  destruct (empty_dataset_leaves_the_prior (mkParams 0.3 0.4 0.5 1.5) empty_Data
              default_Priors 2 ltac:(simpl; lia)) as (_ & H & He).
  rewrite Hf in H.
  split; [exact Hf|]. split; [exact H|]. apply He; [exact Hf | reflexivity..].
Defined.

(* A chain that has made 49 steps and accepted 10 proposals. *)
Definition before_adapting : MCMCChain.t :=
  MCMCChain.mk (mkParams 0.5 0.5 0 1) 0 1 ProposalDistribution.new 10 49 [].

Definition adapted : MCMCChain.t * @rng_state scripted :=
  from_done (MCMCChain.step 5 two_points default_Priors before_adapting
               (replay [] []))
            (before_adapting, replay [] []).

Lemma adapted_runs :
  MCMCChain.step 5 two_points default_Priors before_adapting (replay [] [])
  = Done (fst adapted, snd adapted).
Proof. vm_compute. reflexivity. Qed.

(** X23 on the bench: the fiftieth step of a chain, at the rate 10/50. *)
Lemma step_adapts_every_fifty_witness :
  MCMCChain.total (fst adapted) = 50%Z /\
  ProposalDistribution.step_sizes (MCMCChain.proposal (fst adapted))
  = repeat (0.1 * 0.99) 4.
Proof.
  destruct (step_adapts_every_fifty _ _ _ _ _ _ _ adapted_runs) as [Ht Hs].
  split; [exact Ht|]. rewrite Hs. vm_compute. reflexivity.
Defined.

End Trials.
